(** * Hybrid incentive/company matching pipeline

    A shallow embedding of [Challenge_David/matching.py] and of the
    semantic adapter [score_companies_for_incentive] of
    [Challenge_David/llm_services.py], with the properties of the
    deterministic scorer and of the orchestrator.

    Modelling conventions.
    - Python exceptions are values of [exn]; a computation that may raise
      has type [result A].  [RuntimeError] stands for whatever the client
      of the language model raises.  [json.loads] may raise any of them:
      [JSONDecodeError] on a text that is not JSON, and also
      [RecursionError] on a text nested too deep or [ValueError] on an
      integer literal of too many digits.  It is a function of its text.
    - Python floats are extended rationals ([pyfloat]): every double is a
      rational, an infinity or a NaN, and the comparisons between doubles
      are the comparisons between those.  The only float arithmetic of the
      pipeline, [round(score / 100, 4)], is done on the rationals: a
      decimal such as 7/10 stands for the double nearest to it, and the
      seven scores and the threshold 0.1 compare as their decimals do.
    - The values produced by [json.loads] are the trees of [json]; a dict
      is the list of its bindings, read by its first binding of a key.
    - A set is the list of its elements; only its emptiness and the
      emptiness of an intersection are observed.  Membership is tested as
      a set does: the same object, or an equal one.
    - The session is the committed table, the deletion of line 74 while no
      commit has made it durable, and the rows added but not yet
      committed; the sessions of database.py do not flush before a query.  A commit writes the rows in the order of their addition;
      when the database refuses them, the commit raises its exception and
      the transaction is rolled back.
    - What the pipeline takes from outside the repository (the [json]
      parser, [str.lower], [float] on a string, the language model behind
      [model.generate_content], the constraints of the table [matches])
      is gathered in the record [Externals]; the
      general theorems hold for every instance of it. *)

From Stdlib Require Import List String Ascii ZArith QArith Qround Bool Lia.
From Stdlib Require Import Permutation Sorted.
Import ListNotations.
Local Open Scope string_scope.
Local Open Scope Z_scope.
Local Open Scope list_scope.

Set Warnings "-register-all".

(** ** Exceptions and results *)

Inductive exn : Type :=
| TypeError
| AttributeError
| KeyError
| ValueError
| OverflowError
| JSONDecodeError
| RecursionError
| IntegrityError
| ProgrammingError
| RuntimeError (tag : string).

Inductive result (A : Type) : Type :=
| Ok (a : A)
| Raise (e : exn).

Arguments Ok {A} a.
Arguments Raise {A} e.

Definition rbind {A B : Type} (r : result A) (k : A -> result B) : result B :=
  match r with
  | Ok a => k a
  | Raise e => Raise e
  end.

Declare Scope result_scope.
Delimit Scope result_scope with result.
Notation "x <- r ;; k" := (rbind r (fun x => k))
  (at level 61, r at next level, right associativity) : result_scope.

Definition is_ok {A : Type} (r : result A) : bool :=
  match r with Ok _ => true | Raise _ => false end.

(** ** Floats *)

Inductive pyfloat : Type :=
| Fin (q : Q)
| PosInf
| NegInf
| NaN.

(** [a < b] on floats; every comparison with a NaN is false. *)
Definition flt (a b : pyfloat) : bool :=
  match a, b with
  | NaN, _ | _, NaN => false
  | Fin x, Fin y => negb (Qle_bool y x)
  | Fin _, PosInf => true
  | Fin _, NegInf => false
  | PosInf, _ => false
  | NegInf, NegInf => false
  | NegInf, _ => true
  end.

(** [a > b]. *)
Definition fgt (a b : pyfloat) : bool := flt b a.

(** [a == b] on floats. *)
Definition feq (a b : pyfloat) : bool :=
  match a, b with
  | Fin x, Fin y => Qeq_bool x y
  | PosInf, PosInf => true
  | NegInf, NegInf => true
  | _, _ => false
  end.

(** Nearest integer, ties to the even one: the rounding of [round]. *)
Definition round_half_even (q : Q) : Z :=
  let f := Qfloor q in
  let r := (q - inject_Z f)%Q in
  if Qle_bool r (1 # 2)
  then if Qeq_bool r (1 # 2) then (if Z.even f then f else f + 1) else f
  else f + 1.

(** [round(x, 4)]. *)
Definition round4 (x : pyfloat) : pyfloat :=
  match x with
  | Fin q => Fin (Qred (inject_Z (round_half_even (q * 10000)) / 10000))
  | _ => x
  end.

(** ** JSON values *)

Inductive json : Type :=
| JNull
| JBool (b : bool)
| JInt (z : Z)
| JFloat (f : pyfloat)
| JStr (s : string)
| JList (l : list json)
| JDict (d : list (string * json)).

(** Lists and dicts are the unhashable values. *)
Definition hashable (v : json) : bool :=
  match v with
  | JList _ | JDict _ => false
  | _ => true
  end.

Definition num_of_bool (b : bool) : Z := if b then 1 else 0.

(** Python's [==] between hashable values: [None] equals only [None],
    numbers (booleans included) compare by value, strings with strings. *)
Definition py_eq (a b : json) : bool :=
  match a, b with
  | JNull, JNull => true
  | JStr s, JStr t => String.eqb s t
  | JBool x, JBool y => Bool.eqb x y
  | JBool x, JInt z | JInt z, JBool x => Z.eqb (num_of_bool x) z
  | JBool x, JFloat f | JFloat f, JBool x => feq (Fin (inject_Z (num_of_bool x))) f
  | JInt x, JInt y => Z.eqb x y
  | JInt z, JFloat f | JFloat f, JInt z => feq (Fin (inject_Z z)) f
  | JFloat f, JFloat g => feq f g
  | _, _ => false
  end.

(** Truth value of a Python object. *)
Definition truthy (v : json) : bool :=
  match v with
  | JNull => false
  | JBool b => b
  | JInt z => negb (Z.eqb z 0)
  | JFloat f => negb (feq f (Fin 0))
  | JStr s => negb (String.eqb s EmptyString)
  | JList l => match l with [] => false | _ => true end
  | JDict d => match d with [] => false | _ => true end
  end.

(** [d.get(key)] on a dict: the first binding of the key, [None] without one. *)
Fixpoint assoc_get (d : list (string * json)) (key : string) : option json :=
  match d with
  | [] => None
  | (k, v) :: rest => if String.eqb k key then Some v else assoc_get rest key
  end.

(** [obj.get(key)]: only a dict has the method. *)
Definition py_get (obj : json) (key : string) : result json :=
  match obj with
  | JDict d => Ok (match assoc_get d key with Some v => v | None => JNull end)
  | _ => Raise AttributeError
  end.

(** [obj[key]] with a string key. *)
Definition py_getitem (obj : json) (key : string) : result json :=
  match obj with
  | JDict d => match assoc_get d key with Some v => Ok v | None => Raise KeyError end
  | _ => Raise TypeError
  end.

(** ** Strings *)

(** [needle in hay]. *)
Fixpoint contains (needle hay : string) : bool :=
  if String.prefix needle hay then true
  else match hay with
       | EmptyString => false
       | String _ rest => contains needle rest
       end.

(** Number of bytes of the UTF-8 sequence that starts with byte [n]. *)
Definition utf8_width (n : nat) : nat :=
  if Nat.ltb n 192 then 1
  else if Nat.ltb n 224 then 2
  else if Nat.ltb n 240 then 3
  else 4.

Fixpoint take_str (n : nat) (s : string) : string :=
  match n, s with
  | S m, String a rest => String a (take_str m rest)
  | _, _ => EmptyString
  end.

Fixpoint drop_str (n : nat) (s : string) : string :=
  match n, s with
  | S m, String _ rest => drop_str m rest
  | _, _ => s
  end.

(** The characters of a string, one string per code point. *)
Fixpoint py_chars_fuel (fuel : nat) (s : string) : list string :=
  match fuel, s with
  | S m, String a _ =>
      let w := utf8_width (nat_of_ascii a) in
      take_str w s :: py_chars_fuel m (drop_str w s)
  | _, _ => []
  end.

Definition py_chars (s : string) : list string :=
  py_chars_fuel (String.length s) s.

(** ** Sets of hashable values, kept as lists *)

(** The test of a set on two elements of the same hash: the same object,
    or an equal one.  A NaN equals no float, itself included; but every
    NaN that [json.loads] makes is one object, the constant of its module,
    and the sets of the pipeline hold no other. *)
Definition set_eq (a b : json) : bool :=
  match a, b with
  | JFloat NaN, JFloat NaN => true
  | _, _ => py_eq a b
  end.

Definition py_in (x : json) (s : list json) : bool :=
  existsb (set_eq x) s.

(** Truth value of [a.intersection(b)]. *)
Definition intersects (a b : list json) : bool :=
  existsb (fun x => py_in x b) a.

(** [set(l)]: raises on the first unhashable element. *)
Definition py_set (l : list json) : result (list json) :=
  if forallb hashable l then Ok l else Raise TypeError.

(** The elements added by [s.update(l)] before an unhashable one stops it. *)
Fixpoint hashable_prefix (l : list json) : list json :=
  match l with
  | [] => []
  | x :: rest => if hashable x then x :: hashable_prefix rest else []
  end.

(** [s.update(v)]: the set afterwards, and the exception when one is raised.
    A list adds its elements, a string its characters, a dict its keys;
    nothing else is iterable. *)
Definition set_update (s : list json) (v : json) : list json * option exn :=
  match v with
  | JList l =>
      (s ++ hashable_prefix l,
       if forallb hashable l then None else Some TypeError)
  | JStr str => (s ++ map JStr (py_chars str), None)
  | JDict d => (s ++ map (fun kv => JStr (fst kv)) d, None)
  | _ => (s, Some TypeError)
  end.

(** ** Rows of the relational store (database.py) *)

Record Company : Type := mkCompany {
  nif_code : string;
  company_name : string;
  latest_number_of_employees : option Z;
  cae_primary_code : option string;
  cae_secondary_codes : option string;
  english_trade_description : option string;
  city : option string
}.

Record Incentive : Type := mkIncentive {
  incentive_id : Z;
  title : string;
  ai_description : option string
}.

Record Match : Type := mkMatch {
  m_incentive_id : Z;
  m_company_nif : json;
  m_score : pyfloat
}.

(** What the adapter tells the language model about a candidate. *)
Record Summary : Type := mkSummary {
  s_nif : string;
  s_name : string;
  s_cae : option string;
  s_city : option string;
  s_description : option string
}.

(** ** What comes from outside the repository *)

Record Externals : Type := mkExternals {
  (** [json.loads] on a string, with the exception it raises when it
      raises one. *)
  json_loads : string -> result json;
  (** [str.lower]. *)
  str_lower : string -> string;
  (** [float] on a string; [None] stands for [ValueError]. *)
  float_of_str : string -> option pyfloat;
  (** [model.generate_content(prompt)] followed by [response.text]: the
      answer to the [n]-th request of the process, for the objective, the
      criteria and the candidates written in the prompt. *)
  generate_content : nat -> json -> json -> list Summary -> result string;
  (** The exception of the database when a commit gives it the rows to
      write to the table [matches], [None] when it writes them. *)
  flush_error : list Match -> option exn
}.

(** ** The state the orchestrator works on *)

(** The lines the orchestrator prints. *)
Inductive msg : Type :=
| MsgStart (k : Z)
| MsgNotEnoughData
| MsgClearing
| MsgMatching (title : string)
| MsgCannotParse
| MsgNoRuleCandidates
| MsgScoringWithLLM (n : nat)
| MsgStored (nif : json) (score : pyfloat)
| MsgNoLLMScores
| MsgErrorScoring
| MsgComplete (total : Z).

(** The database seen through a session, the requests made to the semantic
    adapter and the standard output.  [w_matches] is the committed content
    of the table [matches]; [w_pending] holds the rows given to [db.add]
    that no commit has written yet; [w_deleting] tells that the
    transaction has deleted the rows of the table and is not committed. *)
Record World : Type := mkWorld {
  w_incentives : list Incentive;
  w_companies : list Company;
  w_matches : list Match;
  w_pending : list Match;
  w_calls : list (Incentive * list Company);
  w_stdout : list msg;
  w_deleting : bool
}.

(** A computation that reads and writes the world and may raise; what it
    wrote before raising stays written. *)
Definition M (A : Type) : Type := World -> result A * World.

Definition ret {A : Type} (a : A) : M A := fun w => (Ok a, w).

Definition bind {A B : Type} (m : M A) (k : A -> M B) : M B :=
  fun w =>
    match m w with
    | (Ok a, w') => k a w'
    | (Raise e, w') => (Raise e, w')
    end.

Definition lift {A : Type} (r : result A) : M A := fun w => (r, w).

Declare Scope world_scope.
Delimit Scope world_scope with world.
Notation "x <-- m ;; k" := (bind m (fun x => k))
  (at level 61, m at next level, right associativity) : world_scope.
Notation "m ;;; k" := (bind m (fun _ => k))
  (at level 61, right associativity) : world_scope.

Definition print (m : msg) : M unit :=
  fun w => (Ok tt, mkWorld (w_incentives w) (w_companies w) (w_matches w)
                           (w_pending w) (w_calls w) (w_stdout w ++ [m])
                           (w_deleting w)).

(** [db.query(Incentive).all()], [db.query(Company).all()]. *)
Definition query_incentives : M (list Incentive) := fun w => (Ok (w_incentives w), w).
Definition query_companies : M (list Company) := fun w => (Ok (w_companies w), w).

(** [db.query(Match).delete()]: the rows are deleted in the transaction. *)
Definition delete_matches : M unit :=
  fun w => (Ok tt, mkWorld (w_incentives w) (w_companies w) (w_matches w)
                           (w_pending w) (w_calls w) (w_stdout w) true).

(** The exception of a commit with these pending rows: without rows
    nothing is written and nothing is refused. *)
Definition refusal (E : Externals) (rows : list Match) : option exn :=
  match rows with
  | [] => None
  | _ :: _ => flush_error E rows
  end.

(** [db.commit()]: the pending rows are written after what the deletion
    left of the table.  When the database refuses them nothing is written
    and the transaction is rolled back, its deletion included. *)
Definition db_commit (E : Externals) : M unit :=
  fun w =>
    match refusal E (w_pending w) with
    | Some e =>
        (Raise e, mkWorld (w_incentives w) (w_companies w) (w_matches w) []
                          (w_calls w) (w_stdout w) false)
    | None =>
        (Ok tt, mkWorld (w_incentives w) (w_companies w)
                        ((if w_deleting w then [] else w_matches w) ++ w_pending w)
                        [] (w_calls w) (w_stdout w) false)
    end.

(** [db.add(match)]. *)
Definition db_add (m : Match) : M unit :=
  fun w => (Ok tt, mkWorld (w_incentives w) (w_companies w) (w_matches w)
                           (w_pending w ++ [m]) (w_calls w) (w_stdout w)
                           (w_deleting w)).

(** [db_session.close()]: what was not committed is dropped. *)
Definition db_close (w : World) : World :=
  mkWorld (w_incentives w) (w_companies w) (w_matches w) [] (w_calls w) (w_stdout w)
          false.

(** The adapter is entered: the request is recorded, and its rank among the
    requests of the process is returned. *)
Definition record_call (incentive : Incentive) (batch : list Company) : M nat :=
  fun w => (Ok (List.length (w_calls w)),
            mkWorld (w_incentives w) (w_companies w) (w_matches w) (w_pending w)
                    (w_calls w ++ [(incentive, batch)]) (w_stdout w) (w_deleting w)).

(** ** Built-ins *)

(** [for x in l: acc = body(acc, x)]. *)
Fixpoint for_each {A S : Type} (body : S -> A -> M S) (l : list A) (acc : S) : M S :=
  match l with
  | [] => ret acc
  | x :: rest => bind (body acc x) (for_each body rest)
  end.

(** [[f(x) for x in l]], stopping at the first exception. *)
Fixpoint map_r {A B : Type} (f : A -> result B) (l : list A) : result (list B) :=
  match l with
  | [] => Ok []
  | x :: rest =>
      (y <- f x ;; ys <- map_r f rest ;; Ok (y :: ys))%result
  end.

(** [[x for x in l if p(x)]], stopping at the first exception. *)
Fixpoint filter_r {A : Type} (p : A -> result bool) (l : list A) : result (list A) :=
  match l with
  | [] => Ok []
  | x :: rest =>
      (b <- p x ;; ys <- filter_r p rest ;; Ok (if b then x :: ys else ys))%result
  end.

(** Stable insertion in a list sorted by decreasing key: [x], which comes
    first in the input, goes before every element whose key is not
    strictly greater. *)
Fixpoint insert_desc {A : Type} (key : A -> pyfloat) (x : A) (l : list A) : list A :=
  match l with
  | [] => [x]
  | y :: rest =>
      if flt (key x) (key y) then y :: insert_desc key x rest else x :: l
  end.

(** [sorted(l, key=key, reverse=True)] on keys without NaN: decreasing keys,
    equal keys in the order of the input. *)
Definition sorted_desc {A : Type} (key : A -> pyfloat) (l : list A) : list A :=
  fold_right (insert_desc key) [] l.

(** [sorted(l, key=key, reverse=True)] with a key that may raise: the keys
    are computed first, once per element. *)
Definition sorted_desc_r {A : Type} (key : A -> result pyfloat) (l : list A)
  : result (list A) :=
  (keys <- map_r key l ;;
   Ok (map fst (sorted_desc snd (combine l keys))))%result.

(** [l[:n]], also for a negative [n]. *)
Definition slice_to {A : Type} (n : Z) (l : list A) : list A :=
  if 0 <=? n then firstn (Z.to_nat n) l
  else firstn (List.length l - Z.to_nat (- n)) l.

(** [for item in v]: what iterating over a value yields. *)
Definition py_iter (v : json) : result (list json) :=
  match v with
  | JList l => Ok l
  | JStr s => Ok (map JStr (py_chars s))
  | JDict d => Ok (map (fun kv => JStr (fst kv)) d)
  | _ => Raise TypeError
  end.

(** The double nearest to an integer (ties to even), [OverflowError] beyond
    the range of the doubles. *)
Definition float_of_int (z : Z) : result pyfloat :=
  let a := Z.abs z in
  if a <? 2 ^ 53 then Ok (Fin (inject_Z z))
  else if 2 ^ 1024 - 2 ^ 970 <=? a then Raise OverflowError
  else
    let e := Z.log2 a - 52 in
    let m := round_half_even (inject_Z a / inject_Z (2 ^ e)) in
    Ok (Fin (inject_Z (Z.sgn z * m * 2 ^ e))).

Definition is_nil {A : Type} (l : list A) : bool :=
  match l with [] => true | _ => false end.

(** [except (json.JSONDecodeError, TypeError)]: the exceptions that lines 26
    and 86 catch.  [JSONDecodeError] is a [ValueError]; a [ValueError] is
    no [JSONDecodeError]. *)
Definition caught_on_loads (e : exn) : bool :=
  match e with
  | JSONDecodeError | TypeError => true
  | _ => false
  end.

(** ** The pipeline *)

Section Pipeline.

Context (E : Externals).

(** [float(v)]. *)
Definition py_float (v : json) : result pyfloat :=
  match v with
  | JFloat f => Ok f
  | JInt z => float_of_int z
  | JBool b => Ok (Fin (inject_Z (num_of_bool b)))
  | JStr s => match float_of_str E s with Some f => Ok f | None => Raise ValueError end
  | _ => Raise TypeError
  end.

(** [json.loads] on a text column: [None] is not a string. *)
Definition loads_column (text : option string) : result json :=
  match text with
  | None => Raise TypeError
  | Some s => json_loads E s
  end.

(** *** matching.py, [calculate_match_score] *)

Definition weight_cae : Z := 50.
Definition weight_location : Z := 30.
Definition weight_size : Z := 20.
Definition max_score : Z := 100.

(** Lines 22-27: the primary code, and what [update] adds from the secondary
    codes; [JSONDecodeError] and [TypeError] are passed over, every other
    exception of [json.loads] leaves the function. *)
Definition company_caes (company : Company) : result (list json) :=
  let primary :=
    match cae_primary_code company with Some c => JStr c | None => JNull end in
  match cae_secondary_codes company with
  | None => Ok [primary]
  | Some codes =>
      if String.eqb codes EmptyString then Ok [primary]
      else match json_loads E codes with
           | Ok v => Ok (fst (set_update [primary] v))
           | Raise e => if caught_on_loads e then Ok [primary] else Raise e
           end
  end.

(** Lines 20-21. *)
Definition incentive_caes (incentive_details : json) : result (list json) :=
  (caes_value <- py_get incentive_details "caes" ;;
   match caes_value with
   | JList l => py_set l
   | _ => Ok []
   end)%result.

(** Lines 28-31. *)
Definition cae_points (inc_caes comp_caes : list json) : Z :=
  if is_nil inc_caes then weight_cae
  else if intersects comp_caes inc_caes then weight_cae
  else 0.

(** Lines 33-39. *)
Definition location_points (location_value : json) (company : Company) : Z :=
  let incentive_loc :=
    match location_value with JStr s => str_lower E s | _ => EmptyString end in
  let company_city :=
    str_lower E
      (match city company with
       | Some c => if String.eqb c EmptyString then "unknown" else c
       | None => "unknown"
       end) in
  if contains "nacional" incentive_loc || String.eqb incentive_loc EmptyString then weight_location
  else if negb (String.eqb company_city "unknown") && contains company_city incentive_loc
       then weight_location
       else 0.

(** Lines 46-53. *)
Definition size_points (incentive_dim : string) (is_pme is_large : bool) : Z :=
  if contains "não aplicável" incentive_dim || String.eqb incentive_dim EmptyString then weight_size
  else if contains "pme" incentive_dim && negb (contains "grande" incentive_dim) && is_pme
       then weight_size
  else if contains "grande" incentive_dim && negb (contains "pme" incentive_dim) && is_large
       then weight_size
  else if contains "pme" incentive_dim && contains "grande" incentive_dim
          && (is_pme || is_large)
       then weight_size
  else 0.

(** The sum of the awarded weights, before the division. *)
Definition raw_score (incentive_details : json) (company : Company) : result Z :=
  (inc_caes <- incentive_caes incentive_details ;;
   comp_caes <- company_caes company ;;
   let score := 0 + cae_points inc_caes comp_caes in
   location_value <- py_get incentive_details "geographic_location" ;;
   let score := score + location_points location_value company in
   dimension_value <- py_get incentive_details "dimension" ;;
   let incentive_dim :=
     match dimension_value with
     | JStr s => str_lower E s
     | _ => "não aplicável"
     end in
   employees <- match latest_number_of_employees company with
                | Some n => Ok n
                | None => Raise TypeError
                end ;;
   let is_pme := (0 <? employees) && (employees <? 250) in
   let is_large := 250 <=? employees in
   Ok (score + size_points incentive_dim is_pme is_large))%result.

Definition calculate_match_score (incentive_details : json) (company : Company)
  : result pyfloat :=
  (score <- raw_score incentive_details company ;;
   Ok (round4 (Fin (inject_Z score / inject_Z max_score))))%result.

(** *** llm_services.py, [score_companies_for_incentive] *)

Definition summary_of (company : Company) : Summary :=
  mkSummary (nif_code company) (company_name company) (cae_primary_code company)
            (city company) (english_trade_description company).

(** The list returned by the [except] branch. *)
Definition zero_scores (companies_batch : list Company) : json :=
  JList (map (fun company =>
                JDict [("nif", JStr (nif_code company)); ("score", JFloat (Fin 0))])
             companies_batch).

Definition score_companies_for_incentive
    (incentive : Incentive) (companies_batch : list Company) : M json :=
  (n <-- record_call incentive companies_batch ;;
   structured_data <-- lift (loads_column (ai_description incentive)) ;;
   object_text <-- lift (py_getitem structured_data "object") ;;
   criterios <-- lift (py_getitem structured_data "criterios") ;;
   let companies_summary := map summary_of companies_batch in
   match generate_content E n object_text criterios companies_summary with
   | Ok text =>
       match json_loads E text with
       | Ok scores => ret scores
       | Raise _ => print MsgErrorScoring ;;; ret (zero_scores companies_batch)
       end
   | Raise _ => print MsgErrorScoring ;;; ret (zero_scores companies_batch)
   end)%world.

(** *** matching.py, [find_and_store_matches] *)

Definition N : nat := 50.
Definition MIN_RULE_SCORE : pyfloat := Fin (1 # 10).

(** [float(item['score'])]. *)
Definition item_score (item : json) : result pyfloat :=
  (v <- py_getitem item "score" ;; py_float v)%result.

(** Lines 105-109: one row per item kept. *)
Definition store_match (incentive : Incentive) (total : Z) (item : json) : M Z :=
  (nif <-- lift (py_getitem item "nif") ;;
   score <-- lift (item_score item) ;;
   db_add (mkMatch (incentive_id incentive) nif score) ;;;
   print (MsgStored nif score) ;;;
   ret (total + 1))%world.

(** Line 90. *)
Definition rule_scores (incentive_details : json) (companies : list Company)
  : result (list (Company * pyfloat)) :=
  map_r (fun company =>
           (s <- calculate_match_score incentive_details company ;;
            Ok (company, s))%result)
        companies.

(** Lines 91-93. *)
Definition top_n_of (scores : list (Company * pyfloat)) : list Company :=
  let filtered_scores := filter (fun item => fgt (snd item) MIN_RULE_SCORE) scores in
  let top_n := firstn N (sorted_desc snd filtered_scores) in
  map fst top_n.

(** Lines 103-104. *)
Definition top_k_of (k : Z) (llm_scores : json) : result (list json) :=
  (items <- py_iter llm_scores ;;
   llm_scores_filtered <-
     filter_r (fun item => (s <- item_score item ;; Ok (fgt s (Fin 0)))%result) items ;;
   sorted_scores <- sorted_desc_r item_score llm_scores_filtered ;;
   Ok (slice_to k sorted_scores))%result.

(** Lines 83-111: the body of the loop over the incentives; [total] is
    [total_matches_found]. *)
Definition match_incentive (companies : list Company) (k : Z)
    (total : Z) (incentive : Incentive) : M Z :=
  (print (MsgMatching (title incentive)) ;;;
   match loads_column (ai_description incentive) with
   | Raise e =>
       if caught_on_loads e then print MsgCannotParse ;;; ret total
       else lift (Raise e)
   | Ok incentive_details =>
       scores <-- lift (rule_scores incentive_details companies) ;;
       let top_n_companies := top_n_of scores in
       if is_nil top_n_companies
       then print MsgNoRuleCandidates ;;; ret total
       else
         print (MsgScoringWithLLM (List.length top_n_companies)) ;;;
         llm_scores <-- score_companies_for_incentive incentive top_n_companies ;;
         if truthy llm_scores
         then
           top_k_scores <-- lift (top_k_of k llm_scores) ;;
           for_each (store_match incentive) top_k_scores total
         else print MsgNoLLMScores ;;; ret total
   end)%world.

(** The function returns no value: [None] at both exits. *)
Definition find_and_store_matches (k : Z) : M json :=
  (print (MsgStart k) ;;;
   incentives <-- query_incentives ;;
   companies <-- query_companies ;;
   if is_nil incentives || is_nil companies
   then print MsgNotEnoughData ;;; ret JNull
   else
     print MsgClearing ;;;
     delete_matches ;;;
     db_commit E ;;;
     total_matches_found <-- for_each (match_incentive companies k) incentives 0 ;;
     db_commit E ;;;
     print (MsgComplete total_matches_found) ;;;
     ret JNull)%world.

(** Lines 116-124, and [run_pipeline] of main.py, for any [k]: a new
    session, the matching, and the session closed whatever happened. *)
Definition run_in_session (k : Z) (w : World) : result json * World :=
  let (r, w') := find_and_store_matches k (db_close w) in
  (r, db_close w').

End Pipeline.

(** ** Executable stand-ins for the externals

    They serve to evaluate the pipeline on concrete rows.  [json_loads_text]
    follows [json.loads] on JSON texts whose strings have no [\u] escape (it
    answers [None] on those), that are not nested deeper than the
    interpreter recurses and whose integers are within its limit of
    digits; a decimal literal stands for the double nearest to it.  [lower_text] follows [str.lower] on ASCII and on the
    accented capitals of Latin-1.  [float_of_text] follows [float] on plain
    decimal numerals, [inf] and [nan]. *)

Definition dquote : ascii := ascii_of_nat 34.
Definition backslash : ascii := ascii_of_nat 92.

(** The examples write the double quote of a JSON text as an apostrophe. *)
Fixpoint dq (s : string) : string :=
  match s with
  | EmptyString => EmptyString
  | String c rest => String (if Ascii.eqb c "'"%char then dquote else c) (dq rest)
  end.

Definition is_ws (c : ascii) : bool :=
  match c with
  | " "%char | "009"%char | "010"%char | "013"%char => true
  | _ => false
  end.

Fixpoint skip_ws (s : string) : string :=
  match s with
  | String c rest => if is_ws c then skip_ws rest else s
  | EmptyString => s
  end.

Definition is_digit (c : ascii) : bool :=
  let n := nat_of_ascii c in Nat.leb 48 n && Nat.leb n 57.

Definition digit_val (c : ascii) : Z := Z.of_nat (nat_of_ascii c) - 48.

(** The digits at the head of [s]: their value after [acc], how many they
    are, and what follows. *)
Fixpoint read_digits (s : string) (acc : Z) (count : nat) : Z * nat * string :=
  match s with
  | String c rest =>
      if is_digit c then read_digits rest (10 * acc + digit_val c) (S count)
      else (acc, count, s)
  | EmptyString => (acc, count, s)
  end.

(** The fraction [.ddd] when [need_digit] digits at least follow the point. *)
Definition read_fraction (need_digit : bool) (s : string) : option (Q * string) :=
  match s with
  | String "."%char rest =>
      let '(f, d, rest') := read_digits rest 0 O in
      if need_digit && Nat.eqb d 0 then None
      else Some ((inject_Z f / inject_Z (10 ^ Z.of_nat d))%Q, rest')
  | _ => None
  end.

(** The exponent [e+dd]. *)
Definition read_exponent (s : string) : option (Z * string) :=
  match s with
  | String c rest =>
      if Ascii.eqb c "e"%char || Ascii.eqb c "E"%char then
        let '(neg, rest1) :=
          match rest with
          | String "-"%char r => (true, r)
          | String "+"%char r => (false, r)
          | _ => (false, rest)
          end in
        let '(e, d, rest2) := read_digits rest1 0 O in
        if Nat.eqb d 0 then None else Some (if neg then - e else e, rest2)
      else None
  | EmptyString => None
  end.

Definition scale10 (q : Q) (e : Z) : Q := (q * Qpower 10 e)%Q.

(** A JSON number: an [int] without fraction and exponent, a [float] with. *)
Definition read_number (s : string) : option (json * string) :=
  let '(neg, s1) :=
    match s with String "-"%char r => (true, r) | _ => (false, s) end in
  let int_part :=
    match s1 with
    | String "0"%char r => Some (0, r)
    | String c _ => if is_digit c
                    then let '(n, _, r) := read_digits s1 0 O in Some (n, r)
                    else None
    | EmptyString => None
    end in
  match int_part with
  | None => None
  | Some (n, s2) =>
      let '(frac, s3) :=
        match read_fraction true s2 with
        | Some (f, r) => (Some f, r)
        | None => (None, s2)
        end in
      let '(ex, s4) :=
        match read_exponent s3 with
        | Some (e, r) => (Some e, r)
        | None => (None, s3)
        end in
      match frac, ex with
      | None, None => Some (JInt (if neg then - n else n), s4)
      | _, _ =>
          let m := (inject_Z n + match frac with Some f => f | None => 0 end)%Q in
          let v := scale10 m (match ex with Some e => e | None => 0 end) in
          Some (JFloat (Fin (Qred (if neg then - v else v))), s4)
      end
  end.

(** The rest of a string literal after its opening quote. *)
Fixpoint read_string (s : string) (acc : string) : option (string * string) :=
  match s with
  | EmptyString => None
  | String c rest =>
      if Ascii.eqb c dquote then Some (acc, rest)
      else if Ascii.eqb c backslash then
        match rest with
        | String e rest' =>
            let esc :=
              if Ascii.eqb e dquote then Some dquote
              else match e with
                   | "\"%char => Some backslash
                   | "/"%char => Some "/"%char
                   | "b"%char => Some "008"%char
                   | "f"%char => Some "012"%char
                   | "n"%char => Some "010"%char
                   | "r"%char => Some "013"%char
                   | "t"%char => Some "009"%char
                   | _ => None
                   end in
            match esc with
            | Some x => read_string rest' (acc ++ String x EmptyString)%string
            | None => None
            end
        | EmptyString => None
        end
      else if Nat.ltb (nat_of_ascii c) 32 then None
      else read_string rest (acc ++ String c EmptyString)%string
  end.

(** [d[key] = v]: a key already there keeps its place and takes the value. *)
Fixpoint dict_set (d : list (string * json)) (key : string) (v : json)
  : list (string * json) :=
  match d with
  | [] => [(key, v)]
  | (k, x) :: rest =>
      if String.eqb k key then (k, v) :: rest else (k, x) :: dict_set rest key v
  end.

Definition strip_prefix (p s : string) : option string :=
  if String.prefix p s then Some (drop_str (String.length p) s) else None.

Fixpoint read_value (fuel : nat) (s : string) : option (json * string) :=
  match fuel with
  | O => None
  | S f =>
      match s with
      | String "["%char rest =>
          match skip_ws rest with
          | String "]"%char rest' => Some (JList [], rest')
          | rest' => read_elements f rest' []
          end
      | String "{"%char rest =>
          match skip_ws rest with
          | String "}"%char rest' => Some (JDict [], rest')
          | rest' => read_members f rest' []
          end
      | String c rest =>
          if Ascii.eqb c dquote then
            match read_string rest EmptyString with
            | Some (str, rest') => Some (JStr str, rest')
            | None => None
            end
          else
            match strip_prefix "null" s, strip_prefix "true" s, strip_prefix "false" s,
                  strip_prefix "NaN" s, strip_prefix "Infinity" s,
                  strip_prefix "-Infinity" s with
            | Some r, _, _, _, _, _ => Some (JNull, r)
            | _, Some r, _, _, _, _ => Some (JBool true, r)
            | _, _, Some r, _, _, _ => Some (JBool false, r)
            | _, _, _, Some r, _, _ => Some (JFloat NaN, r)
            | _, _, _, _, Some r, _ => Some (JFloat PosInf, r)
            | _, _, _, _, _, Some r => Some (JFloat NegInf, r)
            | _, _, _, _, _, _ => read_number s
            end
      | EmptyString => None
      end
  end
with read_elements (fuel : nat) (s : string) (acc : list json)
  : option (json * string) :=
  match fuel with
  | O => None
  | S f =>
      match read_value f s with
      | Some (v, rest) =>
          match skip_ws rest with
          | String ","%char rest' => read_elements f (skip_ws rest') (acc ++ [v])
          | String "]"%char rest' => Some (JList (acc ++ [v]), rest')
          | _ => None
          end
      | None => None
      end
  end
with read_members (fuel : nat) (s : string) (acc : list (string * json))
  : option (json * string) :=
  match fuel with
  | O => None
  | S f =>
      match s with
      | String c rest =>
          if Ascii.eqb c dquote then
            match read_string rest EmptyString with
            | Some (key, rest1) =>
                match skip_ws rest1 with
                | String ":"%char rest2 =>
                    match read_value f (skip_ws rest2) with
                    | Some (v, rest3) =>
                        match skip_ws rest3 with
                        | String ","%char rest4 =>
                            read_members f (skip_ws rest4) (dict_set acc key v)
                        | String "}"%char rest4 =>
                            Some (JDict (dict_set acc key v), rest4)
                        | _ => None
                        end
                    | None => None
                    end
                | _ => None
                end
            | None => None
            end
          else None
      | EmptyString => None
      end
  end.

Definition json_loads_text (s : string) : option json :=
  match read_value (2 * String.length s + 2) (skip_ws s) with
  | Some (v, rest) =>
      match skip_ws rest with
      | EmptyString => Some v
      | _ => None
      end
  | None => None
  end.

Definition lower_ascii (c : ascii) : ascii :=
  let n := nat_of_ascii c in
  if Nat.leb 65 n && Nat.leb n 90 then ascii_of_nat (n + 32) else c.

Fixpoint lower_text (s : string) : string :=
  match s with
  | EmptyString => EmptyString
  | String c rest =>
      if Nat.eqb (nat_of_ascii c) 195 then
        match rest with
        | String d rest' =>
            let n := nat_of_ascii d in
            if Nat.leb 128 n && Nat.leb n 158 && negb (Nat.eqb n 151)
            then String c (String (ascii_of_nat (n + 32)) (lower_text rest'))
            else String c (String d (lower_text rest'))
        | EmptyString => s
        end
      else String (lower_ascii c) (lower_text rest)
  end.

Fixpoint strip_ws_end (s : string) : string :=
  match s with
  | EmptyString => EmptyString
  | String c rest =>
      match strip_ws_end rest with
      | EmptyString => if is_ws c then EmptyString else String c EmptyString
      | r => String c r
      end
  end.

Definition float_of_text (s : string) : option pyfloat :=
  let body := lower_text (strip_ws_end (skip_ws s)) in
  let '(neg, u) :=
    match body with
    | String "-"%char r => (true, r)
    | String "+"%char r => (false, r)
    | _ => (false, body)
    end in
  if String.eqb u "inf" || String.eqb u "infinity" then Some (if neg then NegInf else PosInf)
  else if String.eqb u "nan" then Some NaN
  else
    let '(n, dn, s1) := read_digits u 0 O in
    let '(frac, df, s2) :=
      match s1 with
      | String "."%char r => let '(f, d, r') := read_digits r 0 O in
                             ((inject_Z f / inject_Z (10 ^ Z.of_nat d))%Q, d, r')
      | _ => (0%Q, O, s1)
      end in
    if Nat.eqb (dn + df) 0 then None
    else
      let '(ex, s3) :=
        match read_exponent s2 with
        | Some (e, r) => (e, r)
        | None => (0, s2)
        end in
      match s3 with
      | EmptyString =>
          let v := scale10 (inject_Z n + frac) ex in
          Some (Fin (Qred (if neg then - v else v)))
      | _ => None
      end.

(** [json.loads] on the texts of the examples. *)
Definition loads_text (s : string) : result json :=
  match json_loads_text s with
  | Some v => Ok v
  | None => Raise JSONDecodeError
  end.

Definition fits_int64 (z : Z) : bool := (- 2 ^ 63 <=? z) && (z <? 2 ^ 63).

(** The table [matches] of database.py in SQLite.  The values are bound to
    the parameters of the INSERT in the order of the columns: an integer
    must fit in 64 bits, and a list or a dict cannot be bound
    ([ProgrammingError]; [InterfaceError] before Python 3.11).  Then the
    row is checked: [company_nif] and [score] are [NOT NULL], so [None] is
    refused, and a NaN too, which SQLite stores as NULL. *)
Definition matches_row_error (row : Match) : option exn :=
  let not_null :=
    match m_company_nif row, m_score row with
    | JNull, _ | JFloat NaN, _ | _, NaN => Some IntegrityError
    | _, _ => None
    end in
  if negb (fits_int64 (m_incentive_id row)) then Some OverflowError
  else
    match m_company_nif row with
    | JList _ | JDict _ => Some ProgrammingError
    | JInt z => if fits_int64 z then not_null else Some OverflowError
    | _ => not_null
    end.

(** The rows written one after the other, as [executemany] does: the
    exception is that of the first row refused. *)
Fixpoint matches_flush_error (rows : list Match) : option exn :=
  match rows with
  | [] => None
  | row :: rest =>
      match matches_row_error row with
      | Some e => Some e
      | None => matches_flush_error rest
      end
  end.

(** The externals of the examples, around a given language model. *)
Definition externals_with
    (llm : nat -> json -> json -> list Summary -> result string) : Externals :=
  mkExternals loads_text lower_text float_of_text llm matches_flush_error.

(** A language model that fails on every request. *)
Definition llm_down : nat -> json -> json -> list Summary -> result string :=
  fun _ _ _ _ => Raise (RuntimeError "unavailable").

(** A language model that always answers the same text. *)
Definition llm_says (text : string)
  : nat -> json -> json -> list Summary -> result string :=
  fun _ _ _ _ => Ok text.

(** * Vocabulary of the properties *)

(** ** Order and scores *)

(** A float that takes part in the order. *)
Definition not_nan (f : pyfloat) : Prop :=
  match f with NaN => False | _ => True end.

(** [a] may stand before [b] in a list of decreasing keys. *)
Definition desc {A : Type} (key : A -> pyfloat) (a b : A) : Prop :=
  flt (key a) (key b) = false.

(** The sums of the subsets of the weights 50, 30 and 20. *)
Definition weight_sums : list Z := [0; 20; 30; 50; 70; 80; 100].

(** The same, over 100. *)
Definition score_values : list pyfloat :=
  [Fin 0; Fin (1 # 5); Fin (3 # 10); Fin (1 # 2); Fin (7 # 10); Fin (4 # 5); Fin 1].

(** The criteria hold a list of codes with an element that cannot be hashed. *)
Definition unhashable_caes (d : list (string * json)) : Prop :=
  exists l, assoc_get d "caes" = Some (JList l) /\ forallb hashable l = false.

(** The primary code as an element of the code set. *)
Definition primary_of (company : Company) : json :=
  match cae_primary_code company with Some c => JStr c | None => JNull end.

(** ** Worlds *)

(** From [w] to [w'] the tables of incentives, companies and committed
    matches are untouched, [rows] were added to the session and [cs] to the
    requests. *)
Definition grows (w w' : World) (rows : list Match)
    (cs : list (Incentive * list Company)) : Prop :=
  w_incentives w' = w_incentives w
  /\ w_companies w' = w_companies w
  /\ w_matches w' = w_matches w
  /\ w_pending w' = w_pending w ++ rows
  /\ w_calls w' = w_calls w ++ cs
  /\ w_deleting w' = w_deleting w.

(** Two worlds hold the same database and the same session. *)
Definition same_db (w1 w2 : World) : Prop :=
  w_incentives w1 = w_incentives w2
  /\ w_companies w1 = w_companies w2
  /\ w_matches w1 = w_matches w2
  /\ w_pending w1 = w_pending w2
  /\ w_deleting w1 = w_deleting w2.

(** The computation does the same to the database, and returns the same,
    whatever was requested and printed before. *)
Definition respects {A : Type} (m : M A) : Prop :=
  forall w1 w2, same_db w1 w2 ->
                fst (m w1) = fst (m w2) /\ same_db (snd (m w1)) (snd (m w2)).

(** The language model is a deterministic stub: its answer does not depend
    on the rank of the request. *)
Definition deterministic_stub (E : Externals) : Prop :=
  forall n m o c b, generate_content E n o c b = generate_content E m o c b.

(** The table [matches] replaced by [old]. *)
Definition with_matches (w : World) (old : list Match) : World :=
  mkWorld (w_incentives w) (w_companies w) old (w_pending w) (w_calls w) (w_stdout w)
          (w_deleting w).

(** The world when line 75 has committed the deletion. *)
Definition cleared (k : Z) (w : World) : World :=
  mkWorld (w_incentives w) (w_companies w) ([] ++ w_pending w) [] (w_calls w)
          ((w_stdout w ++ [MsgStart k]) ++ [MsgClearing]) false.

(** The world when the commit of line 75 was refused. *)
Definition refused (k : Z) (w : World) : World :=
  mkWorld (w_incentives w) (w_companies w) (w_matches w) [] (w_calls w)
          ((w_stdout w ++ [MsgStart k]) ++ [MsgClearing]) false.

(** Lines 77-114. *)
Definition matching_tail (E : Externals) (k : Z) (companies : list Company)
    (incentives : list Incentive) : M json :=
  (total_matches_found <-- for_each (match_incentive E companies k) incentives 0 ;;
   db_commit E ;;;
   print (MsgComplete total_matches_found) ;;;
   ret JNull)%world.

(** The rows of the table that reference an incentive. *)
Definition rows_for (incentive : Incentive) (table : list Match) : list Match :=
  filter (fun row => m_incentive_id row =? incentive_id incentive) table.

(** Rows that all reference the incentive. *)
Definition owned_by (incentive : Incentive) (rows : list Match) : Prop :=
  Forall (fun row => m_incentive_id row = incentive_id incentive) rows.

(** What ties a ranked item, with its key, to the row built from it. *)
Definition row_matches (incentive : Incentive) (p : json * pyfloat) (row : Match)
  : Prop :=
  m_incentive_id row = incentive_id incentive
  /\ m_score row = snd p
  /\ py_getitem (fst p) "nif" = Ok (m_company_nif row).

(** ** The two stages, as functions of their inputs *)

Section Vocabulary.

Context (E : Externals).

(** The row that line 106 builds from an item of the adapter's answer. *)
Definition row_of (incentive : Incentive) (item : json) : result Match :=
  (nif <- py_getitem item "nif" ;;
   score <- item_score E item ;;
   Ok (mkMatch (incentive_id incentive) nif score))%result.

(** What the adapter returns to its [n]-th request. *)
Definition adapter_answer (n : nat) (incentive : Incentive)
    (companies_batch : list Company) : result json :=
  (structured_data <- loads_column E (ai_description incentive) ;;
   object_text <- py_getitem structured_data "object" ;;
   criterios <- py_getitem structured_data "criterios" ;;
   match generate_content E n object_text criterios
                          (map summary_of companies_batch) with
   | Ok text =>
       match json_loads E text with
       | Ok scores => Ok scores
       | Raise _ => Ok (zero_scores companies_batch)
       end
   | Raise _ => Ok (zero_scores companies_batch)
   end)%result.

(** The rule stage in words: every company scored, the scores above the
    threshold kept, ranked by decreasing score with equal scores in their
    first order, and the first fifty taken. *)
Definition rule_candidates (incentive_details : json) (companies batch : list Company)
  : Prop :=
  exists scores kept ranked : list (Company * pyfloat),
    Forall2 (fun company item =>
               fst item = company
               /\ calculate_match_score E incentive_details company = Ok (snd item))
            companies scores
    /\ kept = filter (fun item => fgt (snd item) (Fin (1 # 10))) scores
    /\ Permutation ranked kept
    /\ StronglySorted (desc snd) ranked
    /\ (forall v, filter (fun item => feq (snd item) v) ranked
                  = filter (fun item => feq (snd item) v) kept)
    /\ batch = map fst (firstn 50 ranked)
    /\ (List.length batch <= 50)%nat.

(** The requests [cs] that the turn of one incentive causes.  None when
    its criteria do not load, and none when the scorer raises on a company,
    which ends the run.  Otherwise the candidates of the rule stage decide:
    no request when there is none, and else one request, with all of
    them. *)
Definition one_request (companies : list Company) (incentive : Incentive)
    (cs : list (Incentive * list Company)) : Prop :=
  match loads_column E (ai_description incentive) with
  | Raise _ => cs = []
  | Ok incentive_details =>
      ((exists company,
           In company companies
           /\ is_ok (calculate_match_score E incentive_details company) = false)
       /\ cs = [])
      \/ exists batch,
           rule_candidates incentive_details companies batch
           /\ cs = if is_nil batch then [] else [(incentive, batch)]
  end.

(** The rows one incentive may leave: none, or those built from the first
    [k] items of the adapter's answer. *)
Definition rows_from_answer (companies : list Company) (k : Z) (n : nat)
    (incentive : Incentive) (rows : list Match) : Prop :=
  rows = []
  \/ exists incentive_details scores answer top_k,
       loads_column E (ai_description incentive) = Ok incentive_details
       /\ rule_scores E incentive_details companies = Ok scores
       /\ adapter_answer n incentive (top_n_of scores) = Ok answer
       /\ top_k_of E k answer = Ok top_k
       /\ map_r (row_of incentive) top_k = Ok rows.

(** The rows some request of the run may have left for an incentive. *)
Definition rows_of_incentive (companies : list Company) (k : Z)
    (incentive : Incentive) (rows : list Match) : Prop :=
  exists n, rows_from_answer companies k n incentive rows.

(** An item of the answer that reaches the table: its score is positive. *)
Definition positive_item (item : json) : bool :=
  match item_score E item with
  | Ok s => fgt s (Fin 0)
  | Raise _ => false
  end.

(** A row was built from an item of the semantic adapter's answer to the
    candidates of the rule stage. *)
Definition from_semantic_answer (companies : list Company) (incentive : Incentive)
    (row : Match) : Prop :=
  exists n incentive_details batch answer items item,
    loads_column E (ai_description incentive) = Ok incentive_details
    /\ rule_candidates incentive_details companies batch
    /\ adapter_answer n incentive batch = Ok answer
    /\ py_iter answer = Ok items
    /\ In item items
    /\ item_score E item = Ok (m_score row)
    /\ py_getitem item "nif" = Ok (m_company_nif row).

(** An answer that keeps the contract of the semantic scorer: a list of
    items, each with a company identifier and a score between 0 and 1, and
    no identifier twice. *)
Definition conforming_answer (answer : json) : Prop :=
  exists items,
    answer = JList items
    /\ Forall (fun item =>
                 exists nif s,
                   py_getitem item "nif" = Ok (JStr nif)
                   /\ item_score E item = Ok s
                   /\ flt s (Fin 0) = false /\ flt (Fin 1) s = false) items
    /\ NoDup (map (fun item => py_getitem item "nif") items).

(** Every answer of the language model that parses keeps the contract. *)
Definition scorer_contract : Prop :=
  forall n o c b text answer,
    generate_content E n o c b = Ok text ->
    json_loads E text = Ok answer ->
    conforming_answer answer.

End Vocabulary.

(** ** Example rows *)

Definition company_a : Company :=
  mkCompany "500100200" "Alfa Software" (Some 10) (Some "62") None
            (Some "Software house") (Some "Lisboa").

Definition company_b : Company :=
  mkCompany "500100300" "Beta Obras" (Some 10) (Some "41") None
            (Some "Construction") (Some "Lisboa").

(** A company whose list of secondary codes has an element that is no code. *)
Definition company_c : Company :=
  mkCompany "500100400" "Gama Obras" (Some 10) (Some "41")
            (Some (dq "['62010', []]")) (Some "Construction") (Some "Lisboa").

Definition criteria_text : string :=
  dq "{'caes': ['62'], 'geographic_location': 'Nacional', 'dimension': '', 'object': 'Digitalizar', 'criterios': 'PME'}".

Definition criteria_x : list (string * json) :=
  [("caes", JList [JStr "62"]); ("geographic_location", JStr "Nacional");
   ("dimension", JStr EmptyString); ("object", JStr "Digitalizar");
   ("criterios", JStr "PME")].

Definition incentive_x : Incentive :=
  mkIncentive 1 "Apoio Digital" (Some criteria_text).

(** A row left by an earlier run. *)
Definition old_row : Match := mkMatch 7 (JStr "999") (Fin (9 # 10)).

Definition world_x : World :=
  mkWorld [incentive_x] [company_a; company_b] [old_row] [] [] [] false.

(** The same with the companies in the other order. *)
Definition world_y : World :=
  mkWorld [incentive_x] [company_b; company_a] [old_row] [] [] [] false.

Definition world_without_companies : World :=
  mkWorld [incentive_x] [] [old_row] [] [] [] false.

(** An incentive whose criteria record is the empty object. *)
Definition incentive_bare : Incentive := mkIncentive 2 "Sem criterios" (Some "{}").

Definition world_bare : World :=
  mkWorld [incentive_bare] [company_a] [old_row] [] [] [] false.

Definition good_answer : string :=
  dq "[{'nif': '500100300', 'score': 0.5}, {'nif': '500100200', 'score': 0.8}]".

Definition error_payload : string := dq "{'error': 'quota exceeded'}".

Definition wild_answer : string :=
  dq "[{'nif': '500100200', 'score': 1.5}, {'nif': '500100200', 'score': 0.5}]".

Definition E_good : Externals := externals_with (llm_says good_answer).
Definition E_down : Externals := externals_with llm_down.
Definition E_error : Externals := externals_with (llm_says error_payload).
Definition E_wild : Externals := externals_with (llm_says wild_answer).

(** Criteria and a company for each subset of the three weights. *)
Definition criteria_for (codes : string) : list (string * json) :=
  [("caes", JList [JStr codes]); ("geographic_location", JStr "Porto");
   ("dimension", JStr "PME")].

Definition company_for (employees : Z) (town : string) : Company :=
  mkCompany "500100500" "Delta" (Some employees) (Some "62") None None (Some town).

(** * The other services and the chatbot

    [generate_structured_data_for_incentive] and
    [generate_sql_from_natural_language] of llm_services.py, and
    [get_db_schema] and [chat_with_data] of chatbot.py.  An HTTP exception
    is a reply; what is printed is left out. *)

(** A result of [pd.read_sql_query]. *)
Record DataFrame : Type := mkDataFrame {
  df_columns : list string;
  df_rows : list (list json)
}.

Record Services : Type := mkServices {
  (** [model.generate_content] on the extraction prompt written around the
      text of the incentive, followed by [response.text]. *)
  extract_content : string -> result string;
  (** The same on the prompt written around the schema and the question,
      with the generation configuration built before it. *)
  sql_content : string -> string -> result string;
  (** [str.upper]. *)
  str_upper : string -> string;
  (** The column [sql] of the rows of [sqlite_master] that [get_db_schema]
      selects, or the exception of the connection or of the query. *)
  schema_rows : result (list (option string));
  (** [pd.read_sql_query] over a new connection. *)
  read_sql : string -> result DataFrame
}.

(** ** String methods *)

Definition between (lo n hi : nat) : bool := Nat.leb lo n && Nat.leb n hi.

(** The number of bytes of the white-space character at the head of [s], 0
    when [s] starts with another character: the characters of
    [str.isspace], U+0009 to U+000D, U+001C to U+0020, U+0085, U+00A0,
    U+1680, U+2000 to U+200A, U+2028, U+2029, U+202F, U+205F and U+3000. *)
Definition space_width (s : string) : nat :=
  match s with
  | EmptyString => 0
  | String a r =>
      let n := nat_of_ascii a in
      if between 9 n 13 || between 28 n 32 then 1
      else
        match r with
        | EmptyString => 0
        | String b r' =>
            let m := nat_of_ascii b in
            if Nat.eqb n 194 && (Nat.eqb m 133 || Nat.eqb m 160) then 2
            else
              match r' with
              | EmptyString => 0
              | String c _ =>
                  let p := nat_of_ascii c in
                  if Nat.eqb n 225 && Nat.eqb m 154 && Nat.eqb p 128 then 3
                  else if Nat.eqb n 226 && Nat.eqb m 128
                          && (between 128 p 138 || Nat.eqb p 168 || Nat.eqb p 169
                              || Nat.eqb p 175) then 3
                  else if Nat.eqb n 226 && Nat.eqb m 129 && Nat.eqb p 159 then 3
                  else if Nat.eqb n 227 && Nat.eqb m 128 && Nat.eqb p 128 then 3
                  else 0
              end
        end
  end.

Fixpoint lstrip_fuel (fuel : nat) (s : string) : string :=
  match fuel with
  | O => s
  | S f =>
      match space_width s with
      | O => s
      | w => lstrip_fuel f (drop_str w s)
      end
  end.

(** [s.lstrip()]. *)
Definition py_lstrip (s : string) : string := lstrip_fuel (String.length s) s.

Fixpoint all_space_fuel (fuel : nat) (s : string) : bool :=
  match s with
  | EmptyString => true
  | _ =>
      match fuel with
      | O => false
      | S f =>
          match space_width s with
          | O => false
          | w => all_space_fuel f (drop_str w s)
          end
      end
  end.

(** [s.isspace()], or [s] is empty. *)
Definition all_space (s : string) : bool := all_space_fuel (String.length s) s.

(** [s.rstrip()]. *)
Fixpoint py_rstrip (s : string) : string :=
  match s with
  | EmptyString => EmptyString
  | String a r => if all_space s then EmptyString else String a (py_rstrip r)
  end.

(** [s.strip()]. *)
Definition py_strip (s : string) : string := py_rstrip (py_lstrip s).

(** [s.endswith(suffix)]. *)
Definition py_endswith (suffix s : string) : bool :=
  Nat.leb (String.length suffix) (String.length s)
  && String.eqb (drop_str (String.length s - String.length suffix) s) suffix.

Definition newline : string := String "010"%char EmptyString.

Section OtherServices.

Context (E : Externals) (S : Services).

(** *** llm_services.py, [generate_structured_data_for_incentive] *)

(** The record of the [except] branch. *)
Definition extraction_fallback : json :=
  JDict [("caes", JList []); ("geographic_location", JStr "Error");
         ("dimension", JStr "Error"); ("type_of_investment", JStr "Error");
         ("object", JStr "Failed to process document with AI.");
         ("criterios", JStr "Error"); ("publication_date", JNull);
         ("start_date", JNull); ("end_date", JNull); ("total_budget", JNull)].

Definition generate_structured_data_for_incentive (original_text : string) : json :=
  match extract_content S original_text with
  | Ok text =>
      match json_loads E text with
      | Ok data => data
      | Raise _ => extraction_fallback
      end
  | Raise _ => extraction_fallback
  end.

(** *** llm_services.py, [generate_sql_from_natural_language] *)

Definition ONLY_SELECT : string :=
  "SELECT 'Only SELECT queries are allowed.' AS error;".

Definition SQL_FAILED : string :=
  "SELECT 'An error occurred while generating the SQL query.' AS error;".

Definition generate_sql_from_natural_language (query db_schema : string) : string :=
  match sql_content S query db_schema with
  | Raise _ => SQL_FAILED
  | Ok text =>
      let sql_query := py_strip text in
      if negb (String.prefix "SELECT" (str_upper S (py_lstrip sql_query)))
      then ONLY_SELECT
      else
        let sql_query :=
          if String.prefix "```sql" sql_query then drop_str 5 sql_query
          else sql_query in
        let sql_query :=
          if py_endswith "```" sql_query
          then take_str (String.length sql_query - 3) sql_query
          else sql_query in
        py_strip sql_query
  end.

(** *** chatbot.py *)

Definition get_db_schema : string :=
  match schema_rows S with
  | Ok tables =>
      String.concat newline
        (flat_map (fun table =>
                     match table with
                     | Some sql => if String.eqb sql EmptyString then [] else [sql]
                     | None => []
                     end) tables)
  | Raise _ => EmptyString
  end.

(** What the endpoint asks of the outside. *)
Inductive chat_event : Type :=
| AskedModel (query db_schema : string)
| RanSql (sql : string).

(** The reply of the endpoint: the body of a success, or the status and the
    cause of an [HTTPException]. *)
Inductive reply : Type :=
| Answered (question response : string) (data : list (list (string * json)))
| SchemaUnavailable500
| Refused400 (sql_query : string)
| ExecutionFailed500 (e : exn).

(** [df.empty]. *)
Definition df_empty (df : DataFrame) : bool :=
  is_nil (df_rows df) || is_nil (df_columns df).

(** [df.to_dict(orient='records')]. *)
Definition df_records (df : DataFrame) : list (list (string * json)) :=
  map (fun row => combine (df_columns df) row) (df_rows df).

Definition chat_with_data (query : string) : reply * list chat_event :=
  let schema := get_db_schema in
  if String.eqb schema EmptyString then (SchemaUnavailable500, [])
  else
    let sql_query := generate_sql_from_natural_language query schema in
    let asked := [AskedModel query schema] in
    if contains "error" (str_lower E sql_query)
       || negb (String.prefix "SELECT" (str_upper S (py_lstrip sql_query)))
    then (Refused400 sql_query, asked)
    else
      match read_sql S sql_query with
      | Ok result_df =>
          if df_empty result_df
          then (Answered query "A sua pesquisa não encontrou resultados." [],
                asked ++ [RanSql sql_query])
          else (Answered query "Aqui estão os resultados da sua pesquisa:"
                         (df_records result_df),
                asked ++ [RanSql sql_query])
      | Raise e => (ExecutionFailed500 e, asked ++ [RanSql sql_query])
      end.

End OtherServices.

(** The services of the examples: a language model and a database that
    fail on every request, and an upper case for ASCII. *)
Definition upper_ascii (c : ascii) : ascii :=
  let n := nat_of_ascii c in
  if Nat.leb 97 n && Nat.leb n 122 then ascii_of_nat (n - 32) else c.

Fixpoint upper_text (s : string) : string :=
  match s with
  | EmptyString => EmptyString
  | String c rest => String (upper_ascii c) (upper_text rest)
  end.

Definition services_with (answer : result string) (tables : result (list (option string)))
  : Services :=
  mkServices (fun _ => Raise (RuntimeError "unavailable"))
             (fun _ _ => answer)
             upper_text
             tables
             (fun _ => Raise (RuntimeError "unavailable")).

(** ** Vocabulary of the properties of the services *)

(** [str.lower] leaves the lower-case word [error] where it is. *)
Definition lower_keeps_error (E : Externals) : Prop :=
  forall s, contains "error" s = true -> contains "error" (str_lower E s) = true.

(** [str.upper] leaves a backtick at the head of a string where it is. *)
Definition upper_keeps_backtick (S : Services) : Prop :=
  forall r, exists r', str_upper S (String "`"%char r) = String "`"%char r'.

(** No [RanSql] among the events. *)
Definition ran_no_sql (events : list chat_event) : Prop :=
  Forall (fun ev => match ev with RanSql _ => False | _ => True end) events.

(** ** Vocabulary of the further properties *)

(** Two worlds with the same table of matches, the same session and the
    same requests; the other tables and the output may differ. *)
Definition same_session (w1 w2 : World) : Prop :=
  w_matches w1 = w_matches w2
  /\ w_pending w1 = w_pending w2
  /\ w_calls w1 = w_calls w2
  /\ w_deleting w1 = w_deleting w2.

(** The computation reads nothing else of the world. *)
Definition keeps_session {A : Type} (m : M A) : Prop :=
  forall w1 w2, same_session w1 w2 ->
                fst (m w1) = fst (m w2) /\ same_session (snd (m w1)) (snd (m w2)).

(** The table [incentives] replaced by [incentives]. *)
Definition with_incentives (w : World) (incentives : list Incentive) : World :=
  mkWorld incentives (w_companies w) (w_matches w) (w_pending w) (w_calls w)
          (w_stdout w) (w_deleting w).

(** Lines 85-88 pass over the incentive: [json.loads] raises on its
    criteria one of the two exceptions that line 86 catches. *)
Definition skipped (E : Externals) (incentive : Incentive) : bool :=
  match loads_column E (ai_description incentive) with
  | Ok _ => false
  | Raise e => caught_on_loads e
  end.

(** The incentives the loop does not pass over. *)
Definition not_skipped (E : Externals) (incentives : list Incentive) : list Incentive :=
  filter (fun incentive => negb (skipped E incentive)) incentives.

(** Every request to the language model raises or is answered by a text
    on which [json.loads] raises. *)
Definition llm_always_fails (E : Externals) : Prop :=
  forall n o c b,
    match generate_content E n o c b with
    | Ok text => is_ok (json_loads E text) = false
    | Raise _ => True
    end.

(** The extraction service raises on the text, or answers a text on which
    [json.loads] raises. *)
Definition extraction_fails (E : Externals) (S : Services) (original_text : string)
  : Prop :=
  match extract_content S original_text with
  | Ok text => is_ok (json_loads E text) = false
  | Raise _ => True
  end.

(** The city of the company as line 34 reads it. *)
Definition city_read (E : Externals) (company : Company) : string :=
  str_lower E
    (match city company with
     | Some c => if String.eqb c EmptyString then "unknown" else c
     | None => "unknown"
     end).

(** Line 25 raises on the secondary codes of the company an exception that
    line 26 does not catch. *)
Definition codes_raise (E : Externals) (company : Company) (e : exn) : Prop :=
  exists codes,
    cae_secondary_codes company = Some codes
    /\ codes <> EmptyString
    /\ json_loads E codes = Raise e
    /\ caught_on_loads e = false.

(** Line 85 raises on the criteria of the incentive an exception that line
    86 does not catch. *)
Definition criteria_raise (E : Externals) (incentive : Incentive) (e : exn) : Prop :=
  loads_column E (ai_description incentive) = Raise e
  /\ caught_on_loads e = false.

(** The length of [l[:k]] for a list of length [m]. *)
Definition slice_length (k : Z) (m : nat) : nat :=
  if 0 <=? k then Nat.min (Z.to_nat k) m else (m - Z.to_nat (- k))%nat.

(** A value absent from the criteria, or present with another type than
    the scorer reads. *)
Definition no_code_list (d : list (string * json)) : Prop :=
  match assoc_get d "caes" with
  | Some (JList (_ :: _)) => False
  | _ => True
  end.

Definition no_text_under (key : string) (d : list (string * json)) : Prop :=
  match assoc_get d key with
  | Some (JStr _) => False
  | _ => True
  end.

(** The exceptions of the data: a value of the wrong type or shape, a
    missing key, a text that is no number, a number too large. *)
Definition data_error (e : exn) : Prop :=
  e = TypeError \/ e = AttributeError \/ e = KeyError \/ e = ValueError
  \/ e = OverflowError.

(** Where the exception of a run comes from: the shape of the data, the
    text of a column given to [json.loads], or a row that the database
    refuses. *)
Definition run_error (E : Externals) (incentives : list Incentive)
    (companies : list Company) (e : exn) : Prop :=
  data_error e
  \/ (exists incentive, In incentive incentives /\ criteria_raise E incentive e)
  \/ (exists company, In company companies /\ codes_raise E company e)
  \/ (exists rows, flush_error E rows = Some e).

(** The computation raises nothing but the exceptions of [P]. *)
Definition raises_only {A : Type} (P : exn -> Prop) (m : M A) : Prop :=
  forall w e w', m w = (Raise e, w') -> P e.

(** The same for a result. *)
Definition fails_only {A : Type} (P : exn -> Prop) (r : result A) : Prop :=
  forall e, r = Raise e -> P e.

(** * Properties *)

(** ** Floats *)

Lemma flt_irrefl (a : pyfloat) : flt a a = false.
Proof.
  destruct a; simpl; trivial.
  apply negb_false_iff, Qle_bool_iff, Qle_refl.
Qed.

Lemma flt_asym (a b : pyfloat) : flt a b = true -> flt b a = false.
Proof.
  destruct a, b; simpl; try congruence.
  rewrite negb_true_iff, negb_false_iff.
  intros H. apply Qle_bool_iff. apply Qlt_le_weak.
  apply Qnot_le_lt. intros C. apply Qle_bool_iff in C. congruence.
Qed.

(** On floats that are not NaN, "not less than" is transitive. *)
Lemma flt_false_trans (a b c : pyfloat) :
  not_nan b -> flt a b = false -> flt b c = false -> flt a c = false.
Proof.
  destruct a, b, c; simpl; try congruence; try tauto.
  intros _. rewrite !negb_false_iff, !Qle_bool_iff.
  intros H1 H2. eapply Qle_trans; eassumption.
Qed.

Lemma flt_feq_absurd (a b v : pyfloat) :
  flt a b = true -> feq a v = true -> feq b v = true -> False.
Proof.
  destruct a, b, v; simpl; try congruence.
  rewrite negb_true_iff. intros H Ha Hb.
  apply Qeq_bool_iff in Ha, Hb.
  assert (Qle_bool q0 q = true); [| congruence].
  apply Qle_bool_iff. rewrite Ha, Hb. apply Qle_refl.
Qed.

Lemma fgt_not_nan (a b : pyfloat) : fgt a b = true -> not_nan a.
Proof. unfold fgt. destruct a, b; simpl; congruence || tauto. Qed.

(** ** The sort *)

Section Sorting.

Context {A : Type} (key : A -> pyfloat).

Lemma insert_desc_perm (x : A) (l : list A) :
  Permutation (insert_desc key x l) (x :: l).
Proof.
  induction l as [| y rest IH]; simpl.
  - apply Permutation_refl.
  - destruct (flt (key x) (key y)).
    + eapply perm_trans; [apply perm_skip, IH | apply perm_swap].
    + apply Permutation_refl.
Qed.

Lemma sorted_desc_perm (l : list A) : Permutation (sorted_desc key l) l.
Proof.
  induction l as [| x rest IH]; simpl.
  - apply perm_nil.
  - eapply perm_trans; [apply insert_desc_perm | apply perm_skip, IH].
Qed.

Lemma sorted_desc_length (l : list A) :
  List.length (sorted_desc key l) = List.length l.
Proof. apply Permutation_length, sorted_desc_perm. Qed.

Lemma sorted_desc_in (l : list A) (x : A) : In x (sorted_desc key l) <-> In x l.
Proof.
  split; apply Permutation_in;
    [| apply Permutation_sym]; apply sorted_desc_perm.
Qed.

Lemma insert_desc_sorted (x : A) (l : list A) :
  Forall (fun y => not_nan (key y)) l ->
  StronglySorted (desc key) l -> StronglySorted (desc key) (insert_desc key x l).
Proof.
  intros Hn Hs. induction Hs as [| y rest Hs IH Hy]; simpl.
  - repeat constructor.
  - inversion Hn as [| ? ? Hky Hn']; subst.
    destruct (flt (key x) (key y)) eqn:Hxy.
    + constructor; [apply IH, Hn' |].
      eapply Permutation_Forall; [apply Permutation_sym, insert_desc_perm |].
      constructor; [apply flt_asym, Hxy | exact Hy].
    + constructor; [constructor; assumption |].
      constructor; [exact Hxy |].
      eapply Forall_impl; [| exact Hy].
      intros z Hz. eapply flt_false_trans; eassumption.
Qed.

Lemma sorted_desc_sorted (l : list A) :
  Forall (fun y => not_nan (key y)) l -> StronglySorted (desc key) (sorted_desc key l).
Proof.
  induction l as [| x rest IH]; simpl; intros Hn.
  - constructor.
  - inversion Hn; subst. apply insert_desc_sorted.
    + eapply Permutation_Forall; [apply Permutation_sym, sorted_desc_perm | assumption].
    + apply IH; assumption.
Qed.

(** A class of elements that the order never separates keeps its order. *)
Lemma insert_desc_filter (p : A -> bool) (x : A) (l : list A) :
  (forall a b, flt (key a) (key b) = true -> p a = true -> p b = true -> False) ->
  filter p (insert_desc key x l) = filter p (x :: l).
Proof.
  intros Hp. induction l as [| y rest IH]; simpl; trivial.
  destruct (flt (key x) (key y)) eqn:Hxy; simpl; trivial.
  rewrite IH. simpl.
  destruct (p x) eqn:Hpx, (p y) eqn:Hpy; trivial.
  exfalso. eapply Hp; eassumption.
Qed.

Lemma sorted_desc_filter (p : A -> bool) (l : list A) :
  (forall a b, flt (key a) (key b) = true -> p a = true -> p b = true -> False) ->
  filter p (sorted_desc key l) = filter p l.
Proof.
  intros Hp. induction l as [| x rest IH]; simpl; trivial.
  rewrite insert_desc_filter by assumption. simpl. rewrite IH. reflexivity.
Qed.

(** Stability: the elements of one key come out in the order they came in. *)
Lemma sorted_desc_stable (v : pyfloat) (l : list A) :
  filter (fun x => feq (key x) v) (sorted_desc key l)
  = filter (fun x => feq (key x) v) l.
Proof.
  apply sorted_desc_filter. intros a b. apply flt_feq_absurd.
Qed.

End Sorting.

(** ** The deterministic scorer *)

Section ScorerFacts.

Context (E : Externals).

Lemma cae_points_cases (inc_caes comp_caes : list json) :
  cae_points inc_caes comp_caes = 0 \/ cae_points inc_caes comp_caes = 50.
Proof.
  unfold cae_points, weight_cae.
  destruct (is_nil inc_caes); [right; reflexivity |].
  destruct (intersects comp_caes inc_caes); [right | left]; reflexivity.
Qed.

Lemma location_points_cases (v : json) (company : Company) :
  location_points E v company = 0 \/ location_points E v company = 30.
Proof.
  unfold location_points, weight_location.
  destruct (_ || _); [right; reflexivity |].
  destruct (_ && _); [right | left]; reflexivity.
Qed.

Lemma size_points_cases (dim : string) (p l : bool) :
  size_points dim p l = 0 \/ size_points dim p l = 20.
Proof.
  unfold size_points, weight_size.
  repeat match goal with
         | |- context [if ?c then _ else _] => destruct c
         end; auto.
Qed.

(** The industry weight goes to every company when the incentive names no
    code. *)
Lemma cae_points_no_codes (comp_caes : list json) :
  cae_points [] comp_caes = weight_cae.
Proof. reflexivity. Qed.

Lemma intersects_iff (a b : list json) :
  intersects a b = true <-> exists x y, In x a /\ In y b /\ set_eq x y = true.
Proof.
  unfold intersects, py_in. rewrite existsb_exists. split.
  - intros (x & Hx & H). apply existsb_exists in H as (y & Hy & Hxy). eauto.
  - intros (x & y & Hx & Hy & Hxy). exists x. split; trivial.
    apply existsb_exists. eauto.
Qed.

(** With codes named, the weight goes exactly to the companies that share
    one of them. *)
Lemma cae_points_iff (inc_caes comp_caes : list json) :
  inc_caes <> [] ->
  (cae_points inc_caes comp_caes = weight_cae
   <-> exists x y, In x comp_caes /\ In y inc_caes /\ set_eq x y = true).
Proof.
  intros Hne. unfold cae_points. destruct inc_caes as [| c cs]; [congruence |].
  cbn [is_nil]. rewrite <- intersects_iff.
  destruct (intersects comp_caes (c :: cs)); unfold weight_cae; split;
    congruence || trivial.
Qed.

(** Lines 22-27 raise exactly what line 25 raises and line 26 does not
    catch. *)
Lemma company_caes_raises_iff (company : Company) (e : exn) :
  company_caes E company = Raise e <-> codes_raise E company e.
Proof.
  unfold company_caes, codes_raise. split.
  - destruct (cae_secondary_codes company) as [codes |]; [| discriminate].
    destruct (String.eqb_spec codes EmptyString) as [| Hne]; [discriminate |].
    destruct (json_loads E codes) as [v | e'] eqn:Hl; [discriminate |].
    destruct (caught_on_loads e') eqn:Hc; [discriminate |].
    intros H. injection H as <-. exists codes. auto.
  - intros (codes & -> & Hne & -> & ->).
    destruct (String.eqb_spec codes EmptyString); [contradiction | reflexivity].
Qed.

Lemma company_caes_cases (company : Company) :
  (exists caes, company_caes E company = Ok caes)
  \/ (exists e, codes_raise E company e /\ company_caes E company = Raise e).
Proof.
  destruct (company_caes E company) as [caes | e] eqn:H; [left; eauto |].
  right. exists e. split; [apply company_caes_raises_iff, H | reflexivity].
Qed.

(** Secondary codes that are absent, empty, not JSON, or JSON for a value
    that cannot be iterated, add nothing to the primary code. *)
Lemma company_caes_without_secondary (company : Company) :
  match cae_secondary_codes company with
  | None => True
  | Some codes =>
      codes = EmptyString
      \/ (exists e, json_loads E codes = Raise e /\ caught_on_loads e = true)
      \/ exists v, json_loads E codes = Ok v
                   /\ match v with
                      | JNull | JBool _ | JInt _ | JFloat _ => True
                      | _ => False
                      end
  end ->
  company_caes E company = Ok [primary_of company].
Proof.
  unfold company_caes, primary_of.
  destruct (cae_secondary_codes company) as [codes |]; trivial.
  intros [-> | [(e & H & He) | (v & H & Hv)]]; [reflexivity | |];
    destruct (String.eqb codes EmptyString); trivial; rewrite H.
  - rewrite He. reflexivity.
  - destruct v; simpl; tauto.
Qed.

(** A well-formed list of codes adds all its codes. *)
Lemma company_caes_list (company : Company) (codes : string) (l : list json) :
  cae_secondary_codes company = Some codes ->
  codes <> EmptyString ->
  json_loads E codes = Ok (JList l) ->
  forallb hashable l = true ->
  exists caes,
    company_caes E company = Ok caes
    /\ forall x, In x caes <-> x = primary_of company \/ In x l.
Proof.
  intros Hc Hne Hl Hh. unfold company_caes, primary_of. rewrite Hc.
  destruct (String.eqb codes EmptyString) eqn:He.
  - apply String.eqb_eq in He. contradiction.
  - rewrite Hl. eexists. split; [reflexivity |]. intros x. simpl.
    assert (Hp : hashable_prefix l = l).
    { clear Hl. induction l as [| y r IH]; simpl in *; trivial.
      apply andb_true_iff in Hh as [-> Hr]. rewrite IH; trivial. }
    rewrite Hp. intuition (subst; auto).
Qed.

(** Lines 20-21 on a dict: [TypeError] on an unhashable code, and a set
    otherwise. *)
Lemma incentive_caes_cases (d : list (string * json)) :
  (unhashable_caes d /\ incentive_caes (JDict d) = Raise TypeError)
  \/ (~ unhashable_caes d /\ exists inc_caes, incentive_caes (JDict d) = Ok inc_caes).
Proof.
  unfold incentive_caes, unhashable_caes. cbn [py_get rbind].
  destruct (assoc_get d "caes") as [v |] eqn:Hv.
  2:{ right. split; [intros (l & H & _); discriminate | eauto]. }
  destruct v as [| b | z | f | s | l | dd];
    try (right; split; [intros (l' & H & _); discriminate | eauto]).
  unfold py_set. destruct (forallb hashable l) eqn:Hh.
  - right. split; [intros (l' & H & H'); congruence | eauto].
  - left. split; [exists l; auto | reflexivity].
Qed.

(** What the scorer does on a dict and a company with an employee count:
    it raises [TypeError] on an unhashable code of the incentive, then what
    line 25 raises on the secondary codes of the company, and otherwise
    returns the sum of its three weights. *)
Lemma raw_score_cases (d : list (string * json)) (company : Company) (n : Z) :
  latest_number_of_employees company = Some n ->
  (unhashable_caes d /\ raw_score E (JDict d) company = Raise TypeError)
  \/ (~ unhashable_caes d
      /\ exists e, codes_raise E company e
                   /\ raw_score E (JDict d) company = Raise e)
  \/ (~ unhashable_caes d
      /\ is_ok (company_caes E company) = true
      /\ exists z, In z weight_sums /\ raw_score E (JDict d) company = Ok z).
Proof.
  intros Hn.
  assert (Hsum : forall a b c : Z,
             (a = 0 \/ a = 50) -> (b = 0 \/ b = 30) -> (c = 0 \/ c = 20) ->
             In (0 + a + b + c) weight_sums).
  { intros a b c [-> | ->] [-> | ->] [-> | ->]; simpl; tauto. }
  unfold raw_score.
  destruct (incentive_caes_cases d) as [[Hu ->] | [Hu (inc_caes & ->)]];
    cbn [rbind]; [left; auto | right].
  destruct (company_caes_cases company) as [(caes & Hc) | (e & He & Hc)];
    rewrite Hc; cbn [py_get rbind].
  - right. split; [exact Hu |]. split; [reflexivity |].
    rewrite Hn. cbn [rbind]. eexists; split; [| reflexivity].
    apply Hsum; auto using cae_points_cases, location_points_cases, size_points_cases.
  - left. split; [exact Hu |]. exists e. auto.
Qed.

Lemma round4_weight_sum (z : Z) :
  In z weight_sums ->
  In (round4 (Fin (inject_Z z / inject_Z max_score))) score_values
  /\ feq (round4 (Fin (inject_Z z / inject_Z max_score)))
         (Fin (inject_Z z / inject_Z max_score)) = true.
Proof.
  unfold weight_sums. simpl.
  intros [<- | [<- | [<- | [<- | [<- | [<- | [<- | []]]]]]]];
    vm_compute; intuition congruence.
Qed.

(** Every score lies between 0 and 1. *)
Lemma score_values_unit_interval (v : pyfloat) :
  In v score_values -> flt v (Fin 0) = false /\ flt (Fin 1) v = false.
Proof.
  unfold score_values. simpl.
  intros [<- | [<- | [<- | [<- | [<- | [<- | [<- | []]]]]]]]; vm_compute; auto.
Qed.

(** The scorer returns on every dict without an unhashable code and every
    company with an employee count whose secondary codes line 25 reads or
    passes over. *)
Lemma calculate_match_score_returns
    (d : list (string * json)) (company : Company) (n : Z) :
  latest_number_of_employees company = Some n ->
  ~ unhashable_caes d ->
  is_ok (company_caes E company) = true ->
  exists v, calculate_match_score E (JDict d) company = Ok v
            /\ In v score_values
            /\ round4 v = v.
Proof.
  intros Hn Hh Hcodes.
  destruct (raw_score_cases d company n Hn)
    as [[H _] | [[_ (e & He & _)] | [_ (_ & z & Hz & Hr)]]];
    [contradiction | |].
  { apply company_caes_raises_iff in He. rewrite He in Hcodes. discriminate. }
  unfold calculate_match_score. rewrite Hr. cbn [rbind].
  eexists. split; [reflexivity |].
  split; [apply round4_weight_sum, Hz |].
  revert Hz. unfold weight_sums. simpl.
  intros [<- | [<- | [<- | [<- | [<- | [<- | [<- | []]]]]]]]; reflexivity.
Qed.

(** Without an employee count the scorer raises: the [TypeError] of line
    21, what line 25 raises, or the [TypeError] of the comparison
    [0 < employees]. *)
Lemma calculate_match_score_no_employee_count
    (d : list (string * json)) (company : Company) :
  latest_number_of_employees company = None ->
  exists e, calculate_match_score E (JDict d) company = Raise e
            /\ (e = TypeError \/ codes_raise E company e).
Proof.
  intros Hn. unfold calculate_match_score, raw_score.
  destruct (incentive_caes_cases d) as [[_ ->] | [_ (inc_caes & ->)]];
    cbn [rbind]; [eauto |].
  destruct (company_caes_cases company) as [(caes & ->) | (e & He & ->)];
    cbn [py_get rbind].
  - rewrite Hn. cbn [rbind]. eauto.
  - eauto.
Qed.

(** Only a dict has [get]. *)
Lemma calculate_match_score_not_dict (details : json) (company : Company) :
  match details with JDict _ => False | _ => True end ->
  calculate_match_score E details company = Raise AttributeError.
Proof. destruct details; simpl; tauto || reflexivity. Qed.

End ScorerFacts.

(** ** Comprehensions *)

Lemma map_r_Forall2 {A B : Type} (f : A -> result B) (l : list A) (ys : list B) :
  map_r f l = Ok ys -> Forall2 (fun x y => f x = Ok y) l ys.
Proof.
  revert ys. induction l as [| x rest IH]; simpl; intros ys H.
  - injection H as <-. constructor.
  - destruct (f x) as [y |] eqn:Hx; simpl in H; [| discriminate].
    destruct (map_r f rest) as [ys' |]; simpl in H; [| discriminate].
    injection H as <-. constructor; auto.
Qed.

Lemma filter_r_filter {A : Type} (p : A -> result bool) (l ys : list A) :
  filter_r p l = Ok ys ->
  ys = filter (fun x => match p x with Ok b => b | Raise _ => false end) l.
Proof.
  revert ys. induction l as [| x rest IH]; simpl; intros ys H.
  - injection H as <-. reflexivity.
  - destruct (p x) as [b |]; simpl in H; [| discriminate].
    destruct (filter_r p rest) as [ys' |]; simpl in H; [| discriminate].
    injection H as <-. rewrite (IH ys' eq_refl). destruct b; reflexivity.
Qed.

Lemma Forall2_length_eq {A B : Type} (R : A -> B -> Prop) (l : list A) (l' : list B) :
  Forall2 R l l' -> List.length l = List.length l'.
Proof. induction 1; simpl; congruence. Qed.

Lemma Forall2_firstn {A B : Type} (R : A -> B -> Prop) (n : nat)
    (l : list A) (l' : list B) :
  Forall2 R l l' -> Forall2 R (firstn n l) (firstn n l').
Proof.
  intros H. revert n. induction H; intros [| n]; simpl; constructor; auto.
Qed.

Lemma StronglySorted_firstn {A : Type} (R : A -> A -> Prop) (n : nat) (l : list A) :
  StronglySorted R l -> StronglySorted R (firstn n l).
Proof.
  intros H. revert n. induction H as [| x l Hs IH Hx]; intros [| n]; simpl;
    try constructor; auto.
  rewrite Forall_forall in *. intros y Hy. apply Hx.
  eapply (In_nth_error) in Hy as [i Hi].
  eapply nth_error_In. rewrite nth_error_firstn in Hi.
  destruct (Nat.ltb i n); [eassumption | discriminate].
Qed.

Lemma StronglySorted_Forall2 {A B : Type} (R : A -> A -> Prop) (R' : B -> B -> Prop)
    (Q : A -> B -> Prop) (l : list A) (l' : list B) :
  (forall a b a' b', R a b -> Q a a' -> Q b b' -> R' a' b') ->
  Forall2 Q l l' -> StronglySorted R l -> StronglySorted R' l'.
Proof.
  intros HR H. induction H as [| a a' l l' Ha Hl IH]; intros Hs.
  - constructor.
  - inversion Hs as [| ? ? Hs' Hall]; subst. constructor; [auto |].
    clear IH Hs Hs'. induction Hl as [| b b' l l' Hb Hl IH'].
    + constructor.
    + inversion Hall; subst. constructor; eauto.
Qed.

Lemma slice_to_firstn {A : Type} (k : Z) (l : list A) :
  exists n, slice_to k l = firstn n l /\ (0 <= k -> n = Z.to_nat k).
Proof.
  unfold slice_to. destruct (0 <=? k) eqn:Hk.
  - eexists; split; [reflexivity | trivial].
  - eexists; split; [reflexivity |]. intros H. apply Z.leb_gt in Hk. lia.
Qed.

Lemma slice_to_map {A B : Type} (f : A -> B) (k : Z) (l : list A) :
  slice_to k (map f l) = map f (slice_to k l).
Proof.
  unfold slice_to. rewrite length_map.
  destruct (0 <=? k); apply firstn_map.
Qed.

(** ** The rule stage *)

Section StageSpecs.

Context (E : Externals).

Lemma calculate_match_score_finite (details : json) (company : Company) (v : pyfloat) :
  calculate_match_score E details company = Ok v -> not_nan v.
Proof.
  unfold calculate_match_score.
  destruct (raw_score E details company); simpl; [| discriminate].
  intros H. injection H as <-. exact I.
Qed.

Lemma rule_scores_Forall2 (details : json) (companies : list Company)
    (scores : list (Company * pyfloat)) :
  rule_scores E details companies = Ok scores ->
  Forall2 (fun company item =>
             fst item = company
             /\ calculate_match_score E details company = Ok (snd item))
          companies scores.
Proof.
  intros H. apply map_r_Forall2 in H.
  eapply Forall2_impl; [| exact H]. cbv beta.
  intros c item Hc.
  destruct (calculate_match_score E details c) as [s |]; simpl in Hc;
    [| discriminate].
  injection Hc as <-. auto.
Qed.

Lemma map_r_raises {A B : Type} (f : A -> result B) (l : list A) (e : exn) :
  map_r f l = Raise e -> exists x, In x l /\ f x = Raise e.
Proof.
  induction l as [| x rest IH]; simpl; [discriminate |].
  destruct (f x) as [y | e'] eqn:Hx; simpl.
  - destruct (map_r f rest) as [ys | e'']; simpl; [discriminate |].
    intros H. destruct (IH H) as (x' & Hin & Hx'). eauto.
  - intros H. injection H as <-. eauto.
Qed.

(** Line 90 raises what the scorer raises on some company. *)
Lemma rule_scores_raises (details : json) (companies : list Company) (e : exn) :
  rule_scores E details companies = Raise e ->
  exists company,
    In company companies /\ calculate_match_score E details company = Raise e.
Proof.
  intros H. apply map_r_raises in H as (company & Hin & H).
  exists company. split; [exact Hin |].
  destruct (calculate_match_score E details company); simpl in H;
    [discriminate | congruence].
Qed.

Lemma top_n_of_rule_candidates (details : json) (companies : list Company)
    (scores : list (Company * pyfloat)) :
  rule_scores E details companies = Ok scores ->
  rule_candidates E details companies (top_n_of scores).
Proof.
  intros H. pose proof (rule_scores_Forall2 _ _ _ H) as HF.
  unfold rule_candidates, top_n_of.
  set (kept := filter (fun item => fgt (snd item) MIN_RULE_SCORE) scores).
  exists scores, kept, (sorted_desc snd kept).
  split; [exact HF |]. split; [reflexivity |].
  split; [apply sorted_desc_perm |].
  split.
  { apply sorted_desc_sorted. apply Forall_forall. intros item Hin.
    apply filter_In in Hin as [Hin _].
    clear - HF Hin. induction HF as [| c i cs is_ [_ Hc] _ IH]; [contradiction |].
    destruct Hin as [<- | Hin]; [| auto].
    eapply calculate_match_score_finite; eassumption. }
  split; [intros v; apply sorted_desc_stable |].
  split; [reflexivity |].
  rewrite length_map, length_firstn. apply Nat.le_min_l.
Qed.

End StageSpecs.

Section SemanticStage.

Context (E : Externals).

Lemma combine_map_fst {A B : Type} (l : list A) (l' : list B) :
  List.length l = List.length l' -> map fst (combine l l') = l.
Proof.
  revert l'. induction l as [| x l IH]; intros [| y l']; simpl;
    try discriminate; trivial.
  intros H. f_equal. apply IH. congruence.
Qed.

Lemma NoDup_map_filter {X Y : Type} (g : X -> Y) (keep : X -> bool) (xs : list X)
    (Hnd : NoDup (map g xs)) :
  NoDup (map g (filter keep xs)).
Proof.
  induction xs as [| x xs IH]; simpl in *; [constructor |].
  inversion Hnd as [| ? ? Hx Hxs]; subst.
  destruct (keep x); simpl; auto. constructor; auto.
  intros Hin. apply Hx. apply in_map_iff in Hin as (y & Hy & Hin).
  apply filter_In in Hin as [Hin _]. apply in_map_iff. eauto.
Qed.

Lemma NoDup_firstn_list {A : Type} (n : nat) (l : list A) :
  NoDup l -> NoDup (firstn n l).
Proof.
  intros H. revert n. induction H as [| x l Hx Hl IH]; intros [| n]; simpl;
    try constructor; auto.
  intros Hin. apply Hx. rewrite <- (firstn_skipn n l). apply in_or_app. auto.
Qed.

(** The ranking of the semantic stage: the items with a positive score,
    paired with their scores, by decreasing score. *)
Lemma top_k_of_ranked (k : Z) (answer : json) (top : list json) :
  top_k_of E k answer = Ok top ->
  exists (items : list json) (ranked : list (json * pyfloat)) (n : nat),
    py_iter answer = Ok items
    /\ Permutation (map fst ranked) (filter (positive_item E) items)
    /\ Forall (fun p => item_score E (fst p) = Ok (snd p)
                        /\ fgt (snd p) (Fin 0) = true
                        /\ In (fst p) items) ranked
    /\ StronglySorted (desc snd) ranked
    /\ top = map fst (firstn n ranked)
    /\ (0 <= k -> n = Z.to_nat k).
Proof.
  unfold top_k_of, sorted_desc_r.
  destruct (py_iter answer) as [items |]; cbn [rbind]; [| discriminate].
  destruct (filter_r _ items) as [kept |] eqn:Hf; cbn [rbind]; [| discriminate].
  destruct (map_r (item_score E) kept) as [keys |] eqn:Hk; cbn [rbind];
    [| discriminate].
  intros H. injection H as <-.
  apply filter_r_filter in Hf.
  assert (Hkept : kept = filter (positive_item E) items).
  { rewrite Hf. apply filter_ext. intros item. unfold positive_item.
    destruct (item_score E item); reflexivity. }
  clear Hf. apply map_r_Forall2 in Hk.
  pose proof (Forall2_length_eq _ _ _ Hk) as Hlen.
  assert (Hpairs : Forall (fun p => item_score E (fst p) = Ok (snd p)
                                    /\ fgt (snd p) (Fin 0) = true
                                    /\ In (fst p) items) (combine kept keys)).
  { assert (Hin : forall x, In x kept -> positive_item E x = true /\ In x items).
    { intros x Hx. rewrite Hkept in Hx. apply filter_In in Hx. tauto. }
    clear Hkept Hlen. induction Hk as [| x y l l' Hxy Hl IH]; simpl; constructor.
    - simpl. destruct (Hin x (or_introl eq_refl)) as [Hp Hi].
      unfold positive_item in Hp. rewrite Hxy in Hp. auto.
    - apply IH. intros z Hz. apply Hin. right. exact Hz. }
  destruct (slice_to_firstn k (sorted_desc snd (combine kept keys))) as (n & Hn & Hk0).
  exists items, (sorted_desc snd (combine kept keys)), n.
  split; [reflexivity |].
  split.
  { rewrite <- Hkept. rewrite <- (combine_map_fst kept keys Hlen) at 2.
    apply Permutation_map, sorted_desc_perm. }
  split.
  { eapply Permutation_Forall; [apply Permutation_sym, sorted_desc_perm | exact Hpairs]. }
  split.
  { apply sorted_desc_sorted. eapply Forall_impl; [| exact Hpairs].
    intros p (_ & Hp & _). eapply fgt_not_nan, Hp. }
  split; [| exact Hk0].
  rewrite slice_to_map, Hn. reflexivity.
Qed.

Lemma rows_of_ranked (incentive : Incentive) (ranked : list (json * pyfloat))
    (rows : list Match) :
  Forall (fun p => item_score E (fst p) = Ok (snd p)) ranked ->
  map_r (row_of E incentive) (map fst ranked) = Ok rows ->
  Forall2 (row_matches incentive) ranked rows.
Proof.
  intros Hs H. apply map_r_Forall2 in H.
  remember (map fst ranked) as items eqn:Hi. revert ranked Hs Hi.
  induction H as [| item row l l' Hrow Hl IH]; intros [| p ranked] Hs Hi;
    try discriminate; [constructor |].
  simpl in Hi. injection Hi as -> ->. inversion Hs as [| ? ? Hp Hs']; subst.
  constructor; [| apply IH; trivial].
  unfold row_of in Hrow. rewrite Hp in Hrow.
  destruct (py_getitem (fst p) "nif") as [nif |] eqn:Hnif; simpl in Hrow;
    [| discriminate].
  injection Hrow as <-. repeat split. exact Hnif.
Qed.

(** The rows of one incentive: at most [k], each with the positive score
    and the identifier of an item of the answer, by decreasing score, and
    without a repeated identifier when the answer has none. *)
Lemma rows_of_top_k (incentive : Incentive) (k : Z) (answer : json)
    (top : list json) (rows : list Match) :
  top_k_of E k answer = Ok top ->
  map_r (row_of E incentive) top = Ok rows ->
  (0 <= k -> (List.length rows <= Z.to_nat k)%nat)
  /\ StronglySorted (desc m_score) rows
  /\ Forall (fun row =>
               m_incentive_id row = incentive_id incentive
               /\ fgt (m_score row) (Fin 0) = true
               /\ exists items item,
                    py_iter answer = Ok items /\ In item items
                    /\ py_getitem item "nif" = Ok (m_company_nif row)
                    /\ item_score E item = Ok (m_score row)) rows
  /\ (forall items, py_iter answer = Ok items ->
                    NoDup (map (fun item => py_getitem item "nif") items) ->
                    NoDup (map m_company_nif rows)).
Proof.
  intros Ht Hr.
  destruct (top_k_of_ranked _ _ _ Ht) as (items & ranked & n & Hit & Hperm & Hall & Hsort & -> & Hn).
  assert (Hall' : Forall (fun p => item_score E (fst p) = Ok (snd p)
                                   /\ fgt (snd p) (Fin 0) = true
                                   /\ In (fst p) items) (firstn n ranked)).
  { apply Forall_forall. intros p Hp. rewrite Forall_forall in Hall.
    apply Hall. rewrite <- (firstn_skipn n ranked). apply in_or_app. auto. }
  assert (HF : Forall2 (row_matches incentive) (firstn n ranked) rows).
  { apply rows_of_ranked; [| exact Hr].
    eapply Forall_impl; [| exact Hall']. cbv beta. tauto. }
  split.
  { intros Hk. rewrite <- (Forall2_length_eq _ _ _ HF), length_firstn.
    rewrite (Hn Hk). apply Nat.le_min_l. }
  split.
  { eapply StronglySorted_Forall2; [| exact HF | apply StronglySorted_firstn, Hsort].
    unfold desc, row_matches. intros a b a' b' Hab (_ & -> & _) (_ & -> & _).
    exact Hab. }
  split.
  { clear - HF Hall' Hit. induction HF as [| p row l l' Hp Hl IH]; constructor.
    - inversion Hall' as [| ? ? (Hs & Hpos & Hin) _]; subst.
      destruct Hp as (Hid & Hsc & Hnif). rewrite Hsc.
      repeat split; trivial. exists items, (fst p). auto.
    - apply IH. inversion Hall'; assumption. }
  intros items' Hit' Hnd. rewrite Hit in Hit'. injection Hit' as <-.
  assert (Hnr : NoDup (map (fun p => py_getitem (fst p) "nif") (firstn n ranked))).
  { rewrite <- firstn_map. apply NoDup_firstn_list.
    rewrite <- (map_map fst (fun item => py_getitem item "nif")).
    eapply Permutation_NoDup;
      [apply Permutation_sym, Permutation_map, Hperm |].
    apply NoDup_map_filter, Hnd. }
  clear - HF Hnr.
  assert (Heq : map (fun p => py_getitem (fst p) "nif") (firstn n ranked)
                = map (fun row => Ok (m_company_nif row)) rows).
  { clear Hnr. induction HF as [| p row l l' (_ & _ & Hp) Hl IH]; simpl; [trivial |].
    rewrite Hp, IH. reflexivity. }
  rewrite Heq in Hnr. rewrite <- (map_map m_company_nif (@Ok json)) in Hnr.
  eapply NoDup_map_inv, Hnr.
Qed.

End SemanticStage.

(** ** The orchestrator, step by step *)

Lemma grows_refl (w : World) : grows w w [] [].
Proof. unfold grows. rewrite !app_nil_r. auto 10. Qed.

Lemma grows_trans (w1 w2 w3 : World) (r1 r2 : list Match)
    (c1 c2 : list (Incentive * list Company)) :
  grows w1 w2 r1 c1 -> grows w2 w3 r2 c2 -> grows w1 w3 (r1 ++ r2) (c1 ++ c2).
Proof.
  unfold grows. intros (A1 & B1 & C1 & D1 & E1 & F1) (A2 & B2 & C2 & D2 & E2 & F2).
  rewrite A2, B2, C2, D2, E2, F2, A1, B1, C1, D1, E1, F1, !app_assoc. auto 10.
Qed.

Arguments grows_trans {w1 w2 w3 r1 r2 c1 c2} _ _.

Lemma grows_print (m : msg) (w : World) : grows w (snd (print m w)) [] [].
Proof. unfold grows. simpl. rewrite !app_nil_r. auto 10. Qed.

Lemma bind_inv {A B : Type} (m : M A) (k : A -> M B) (w w' : World) (r : result B) :
  bind m k w = (r, w') ->
  (exists a w1, m w = (Ok a, w1) /\ k a w1 = (r, w'))
  \/ (exists e, m w = (Raise e, w') /\ r = Raise e).
Proof.
  unfold bind. destruct (m w) as [[a | e] w1]; intros H.
  - left. eauto.
  - right. injection H as <- <-. eauto.
Qed.

Section OrchestratorSteps.

Context (E : Externals).

Lemma store_match_spec (incentive : Incentive) (total : Z) (item : json)
    (w w' : World) (r : result Z) :
  store_match E incentive total item w = (r, w') ->
  (exists row, row_of E incentive item = Ok row /\ r = Ok (total + 1)
               /\ grows w w' [row] [])
  \/ (exists e, row_of E incentive item = Raise e /\ r = Raise e /\ w' = w).
Proof.
  unfold store_match, row_of, bind, lift.
  destruct (py_getitem item "nif") as [nif | e]; cbn [rbind].
  2:{ intros H. injection H as <- <-. right. eauto. }
  destruct (item_score E item) as [s | e]; cbn [rbind].
  2:{ intros H. injection H as <- <-. right. eauto. }
  simpl. intros H. injection H as <- <-. left.
  eexists. split; [reflexivity |]. split; [reflexivity |].
  unfold grows. simpl. rewrite !app_nil_r. auto 10.
Qed.

(** Lines 105-109: the rows stored, and the count raised by their number. *)
Lemma store_loop_spec (incentive : Incentive) (items : list json) (total : Z)
    (w w' : World) (r : result Z) :
  for_each (store_match E incentive) items total w = (r, w') ->
  exists rows,
    grows w w' rows []
    /\ forall t, r = Ok t ->
                 map_r (row_of E incentive) items = Ok rows
                 /\ t = total + Z.of_nat (List.length rows).
Proof.
  revert total w. induction items as [| item rest IH]; simpl; intros total w H.
  - injection H as <- <-. exists []. split; [apply grows_refl |].
    intros t Ht. injection Ht as <-. split; [reflexivity | simpl; lia].
  - apply bind_inv in H as [(a & w1 & Hm & Hk) | (e & Hm & ->)].
    + apply store_match_spec in Hm
        as [(row & Hrow & Ha & Hg) | (e & _ & Ha & _)]; [| discriminate].
      injection Ha as ->.
      apply IH in Hk as (rows & Hg' & Hok).
      exists (row :: rows). split.
      { apply (grows_trans Hg Hg'). }
      intros t Ht. destruct (Hok t Ht) as [Hrows ->].
      rewrite Hrow, Hrows. split; [reflexivity |].
      simpl List.length. lia.
    + apply store_match_spec in Hm
        as [(row & _ & Ha & _) | (e' & _ & _ & ->)]; [discriminate |].
      exists []. split; [apply grows_refl | discriminate].
Qed.

(** The adapter records its request and answers as [adapter_answer] says. *)
Lemma score_companies_for_incentive_spec (incentive : Incentive)
    (batch : list Company) (w w' : World) (r : result json) :
  score_companies_for_incentive E incentive batch w = (r, w') ->
  r = adapter_answer E (List.length (w_calls w)) incentive batch
  /\ grows w w' [] [(incentive, batch)].
Proof.
  unfold score_companies_for_incentive, adapter_answer, bind, record_call, lift.
  assert (Hg : forall out,
             grows w (mkWorld (w_incentives w) (w_companies w) (w_matches w)
                              (w_pending w) (w_calls w ++ [(incentive, batch)]) out
                              (w_deleting w))
                   [] [(incentive, batch)]).
  { intros out. unfold grows. simpl. rewrite app_nil_r. auto 10. }
  destruct (loads_column E (ai_description incentive)) as [sd | e]; cbn [rbind].
  2:{ intros H. injection H as <- <-. auto. }
  destruct (py_getitem sd "object") as [o | e]; cbn [rbind].
  2:{ intros H. injection H as <- <-. auto. }
  destruct (py_getitem sd "criterios") as [c | e]; cbn [rbind].
  2:{ intros H. injection H as <- <-. auto. }
  destruct (generate_content E _ o c _) as [text | e].
  - destruct (json_loads E text); simpl; intros H; injection H as <- <-; auto.
  - simpl; intros H; injection H as <- <-; auto.
Qed.

(** One turn of the loop over the incentives. *)
Lemma match_incentive_spec (companies : list Company) (k total : Z)
    (incentive : Incentive) (w w' : World) (r : result Z) :
  match_incentive E companies k total incentive w = (r, w') ->
  exists rows cs,
    grows w w' rows cs
    /\ one_request E companies incentive cs
    /\ forall t, r = Ok t ->
                 t = total + Z.of_nat (List.length rows)
                 /\ rows_from_answer E companies k (List.length (w_calls w))
                                     incentive rows.
Proof.
  unfold match_incentive. intros H.
  apply bind_inv in H as [([] & w1 & Hp & H) | (e & Hp & _)]; [| discriminate].
  assert (Hg1 : grows w w1 [] []).
  { injection Hp as <-. apply (grows_print _ w). }
  assert (Hcalls : w_calls w1 = w_calls w).
  { destruct Hg1 as (_ & _ & _ & _ & -> & _). apply app_nil_r. }
  clear Hp. unfold one_request.
  destruct (loads_column E (ai_description incentive)) as [details | e] eqn:Hd.
  2:{ destruct (caught_on_loads e).
      - simpl in H. injection H as <- <-. exists [], []. split.
        { apply (grows_trans Hg1 (grows_print _ w1)). }
        split; [reflexivity |].
        intros t Ht. injection Ht as <-. split; [simpl; lia | left; reflexivity].
      - unfold lift in H. injection H as <- <-. exists [], [].
        split; [exact Hg1 |]. split; [reflexivity | discriminate]. }
  apply bind_inv in H as [(scores & w2 & Hs & H) | (e & Hs & ->)].
  2:{ unfold lift in Hs. injection Hs as Hs <-. exists [], [].
      split; [exact Hg1 |]. split; [| discriminate].
      left. split; [| reflexivity].
      apply rule_scores_raises in Hs as (company & Hin & Hs).
      exists company. rewrite Hs. auto. }
  unfold lift in Hs. injection Hs as Hs <-.
  destruct (is_nil (top_n_of scores)) eqn:Hnil.
  { simpl in H. injection H as <- <-. exists [], []. split.
    { apply (grows_trans Hg1 (grows_print _ w1)). }
    split.
    { right. exists (top_n_of scores).
      split; [apply top_n_of_rule_candidates, Hs |]. rewrite Hnil. reflexivity. }
    intros t Ht. injection Ht as <-. split; [simpl; lia | left; reflexivity]. }
  assert (Hreq : (exists company,
                     In company companies
                     /\ is_ok (calculate_match_score E details company) = false)
                 /\ [(incentive, top_n_of scores)] = []
                 \/ exists batch,
                      rule_candidates E details companies batch
                      /\ [(incentive, top_n_of scores)]
                         = if is_nil batch then [] else [(incentive, batch)]).
  { right. exists (top_n_of scores).
    split; [apply top_n_of_rule_candidates, Hs |]. rewrite Hnil. reflexivity. }
  apply bind_inv in H as [([] & w2 & Hp & H) | (e & Hp & _)]; [| discriminate].
  assert (Hg2 : grows w w2 [] []).
  { injection Hp as <-. apply (grows_trans Hg1 (grows_print _ w1)). }
  assert (Hcalls2 : w_calls w2 = w_calls w).
  { destruct Hg2 as (_ & _ & _ & _ & -> & _). apply app_nil_r. }
  clear Hp.
  apply bind_inv in H as [(answer & w3 & Ha & H) | (e & Ha & ->)].
  2:{ apply score_companies_for_incentive_spec in Ha as [_ Hg3].
      exists [], [(incentive, top_n_of scores)].
      split; [apply (grows_trans Hg2 Hg3) |].
      split; [exact Hreq | discriminate]. }
  apply score_companies_for_incentive_spec in Ha as [Hans Hg3].
  rewrite Hcalls2 in Hans.
  pose proof (grows_trans Hg2 Hg3) as Hg23. simpl in Hg23.
  destruct (truthy answer).
  2:{ simpl in H. injection H as <- <-.
      exists [], [(incentive, top_n_of scores)]. split.
      { apply (grows_trans Hg23 (grows_print _ w3)). }
      split; [exact Hreq |].
      intros t Ht. injection Ht as <-. split; [simpl; lia | left; reflexivity]. }
  apply bind_inv in H as [(top & w4 & Ht & H) | (e & Ht & ->)].
  2:{ unfold lift in Ht. injection Ht as _ <-.
      exists [], [(incentive, top_n_of scores)].
      split; [exact Hg23 |]. split; [exact Hreq | discriminate]. }
  unfold lift in Ht. injection Ht as Ht <-.
  apply store_loop_spec in H as (rows & Hg4 & Hok).
  exists rows, [(incentive, top_n_of scores)].
  split; [apply (grows_trans Hg23 Hg4) |].
  split; [exact Hreq |].
  intros t Hr. destruct (Hok t Hr) as [Hrows ->].
  split; [reflexivity |].
  right. exists details, scores, answer, top. symmetry in Hans. auto.
Qed.

End OrchestratorSteps.

(** ** The three ways into the run *)

Lemma find_and_store_matches_empty (E : Externals) (k : Z) (w : World) :
  w_incentives w = [] \/ w_companies w = [] ->
  find_and_store_matches E k w
  = (Ok JNull,
     mkWorld (w_incentives w) (w_companies w) (w_matches w) (w_pending w)
             (w_calls w) (w_stdout w ++ [MsgStart k; MsgNotEnoughData])
             (w_deleting w)).
Proof.
  intros H. unfold find_and_store_matches, query_incentives, query_companies.
  unfold bind at 1 2 3. cbn [print fst snd w_incentives w_companies].
  assert (Hn : is_nil (w_incentives w) || is_nil (w_companies w) = true).
  { destruct H as [-> | ->]; [reflexivity | apply orb_true_r]. }
  rewrite Hn. unfold bind, print, ret. simpl. rewrite <- app_assoc. reflexivity.
Qed.

Lemma find_and_store_matches_clears (E : Externals) (k : Z) (w : World) :
  w_incentives w <> [] -> w_companies w <> [] ->
  find_and_store_matches E k w
  = match refusal E (w_pending w) with
    | Some e => (Raise e, refused k w)
    | None => matching_tail E k (w_companies w) (w_incentives w) (cleared k w)
    end.
Proof.
  intros Hi Hc. unfold find_and_store_matches, query_incentives, query_companies.
  unfold bind at 1 2 3. cbn [print fst snd w_incentives w_companies].
  destruct (w_incentives w) as [| i incs] eqn:Ei; [congruence |].
  destruct (w_companies w) as [| c comps] eqn:Ec; [congruence |].
  cbn [is_nil orb]. unfold bind at 1 2 3.
  cbn [print delete_matches fst snd]. unfold db_commit at 1.
  cbn [w_incentives w_companies w_matches w_pending w_calls w_stdout w_deleting].
  destruct (refusal E (w_pending w)).
  - unfold refused. rewrite Ei, Ec. reflexivity.
  - unfold matching_tail, cleared. rewrite Ei, Ec. reflexivity.
Qed.

Lemma find_and_store_matches_nonempty (E : Externals) (k : Z) (w : World) :
  w_incentives w <> [] -> w_companies w <> [] ->
  refusal E (w_pending w) = None ->
  find_and_store_matches E k w
  = matching_tail E k (w_companies w) (w_incentives w) (cleared k w).
Proof.
  intros Hi Hc Hf. rewrite find_and_store_matches_clears by assumption.
  rewrite Hf. reflexivity.
Qed.

Section OrchestratorRun.

Context (E : Externals).

(** The loop over the incentives: those it started each made at most one
    request; when it ends, every incentive was started and the count is
    the number of rows added. *)
Lemma incentives_loop_spec (companies : list Company) (k : Z)
    (incentives : list Incentive) (total : Z) (w w' : World) (r : result Z) :
  for_each (match_incentive E companies k) incentives total w = (r, w') ->
  exists started rest rowss css,
    incentives = started ++ rest
    /\ grows w w' (List.concat rowss) (List.concat css)
    /\ Forall2 (one_request E companies) started css
    /\ forall t, r = Ok t ->
                 rest = []
                 /\ t = total + Z.of_nat (List.length (List.concat rowss))
                 /\ Forall2 (rows_of_incentive E companies k) started rowss.
Proof.
  revert total w. induction incentives as [| inc incs IH]; simpl; intros total w H.
  - injection H as <- <-. exists [], [], [], []. simpl.
    split; [reflexivity |]. split; [apply grows_refl |]. split; [constructor |].
    intros t Ht. injection Ht as <-. split; [reflexivity |].
    split; [lia | constructor].
  - apply bind_inv in H as [(a & w1 & Hm & Hk) | (e & Hm & ->)].
    + apply match_incentive_spec in Hm as (rows & cs & Hg & Hreq & Hok).
      destruct (Hok a eq_refl) as [-> Hrows].
      apply IH in Hk as (started & rest & rowss & css & -> & Hg' & Hreqs & Hok').
      exists (inc :: started), rest, (rows :: rowss), (cs :: css). simpl.
      split; [reflexivity |].
      split; [exact (grows_trans Hg Hg') |].
      split; [constructor; assumption |].
      intros t Ht. destruct (Hok' t Ht) as (-> & -> & HF).
      split; [reflexivity |].
      split; [rewrite length_app; lia |].
      constructor; [exists (List.length (w_calls w)); exact Hrows | exact HF].
    + apply match_incentive_spec in Hm as (rows & cs & Hg & Hreq & _).
      exists [inc], incs, [rows], [cs]. simpl.
      split; [reflexivity |].
      split; [exact (grows_trans Hg (grows_refl w')) |].
      split; [constructor; [assumption | constructor] | discriminate].
Qed.

(** The run as a whole. *)
Lemma find_and_store_matches_spec (k : Z) (w w' : World) (r : result json) :
  find_and_store_matches E k w = (r, w') ->
  ((w_incentives w = [] \/ w_companies w = [])
   /\ r = Ok JNull
   /\ grows w w' [] []
   /\ w_stdout w' = w_stdout w ++ [MsgStart k; MsgNotEnoughData])
  \/ (w_incentives w <> [] /\ w_companies w <> []
      /\ w_incentives w' = w_incentives w
      /\ w_companies w' = w_companies w
      /\ exists started rest rowss css,
           w_incentives w = started ++ rest
           /\ w_calls w' = w_calls w ++ List.concat css
           /\ Forall2 (one_request E (w_companies w)) started css
           /\ match r with
              | Ok v =>
                  v = JNull /\ rest = []
                  /\ w_matches w' = w_pending w ++ List.concat rowss
                  /\ w_pending w' = []
                  /\ Forall2 (rows_of_incentive E (w_companies w) k) started rowss
                  /\ exists out,
                       w_stdout w'
                       = out ++ [MsgComplete (Z.of_nat (List.length (List.concat rowss)))]
              | Raise _ =>
                  w_matches w' = w_pending w
                  \/ (refusal E (w_pending w) <> None
                      /\ w_matches w' = w_matches w)
              end).
Proof.
  intros H.
  destruct (is_nil (w_incentives w) || is_nil (w_companies w)) eqn:Hnil.
  - assert (Hempty : w_incentives w = [] \/ w_companies w = []).
    { apply orb_true_iff in Hnil as [Hn | Hn];
        [left; destruct (w_incentives w) | right; destruct (w_companies w)];
        trivial; discriminate. }
    rewrite (find_and_store_matches_empty E k w Hempty) in H.
    injection H as <- <-. left.
    split; [exact Hempty |]. split; [reflexivity |].
    split; [unfold grows; simpl; rewrite !app_nil_r; auto 10 | reflexivity].
  - apply orb_false_iff in Hnil as [Hi Hc]. right.
    assert (Hi' : w_incentives w <> []).
    { intros Heq; rewrite Heq in Hi; discriminate. }
    assert (Hc' : w_companies w <> []).
    { intros Heq; rewrite Heq in Hc; discriminate. }
    split; [exact Hi' |]. split; [exact Hc' |].
    rewrite (find_and_store_matches_clears E k w Hi' Hc') in H.
    destruct (refusal E (w_pending w)) as [e |] eqn:Hf.
    { injection H as <- <-. simpl.
      split; [reflexivity |]. split; [reflexivity |].
      exists [], (w_incentives w), [], []. simpl. rewrite app_nil_r.
      split; [reflexivity |]. split; [reflexivity |]. split; [constructor |].
      right. split; [congruence | reflexivity]. }
    unfold matching_tail in H.
    apply bind_inv in H as [(t & w1 & Hloop & H) | (e & Hloop & ->)].
    + apply incentives_loop_spec in Hloop
        as (started & rest & rowss & css & Hs & Hg & Hreq & Hok).
      destruct (Hok t eq_refl) as (-> & -> & HF).
      destruct Hg as (Gi & Gc & Gm & Gp & Gcalls & Gd). simpl in *.
      split; [| split].
      * apply bind_inv in H as [([] & w2 & Hcommit & H) | (e & Hcommit & _)];
          unfold db_commit in Hcommit;
          destruct (refusal E (w_pending w1)); try discriminate.
        -- injection Hcommit as <-. injection H as _ <-. exact Gi.
        -- injection Hcommit as _ <-. exact Gi.
      * apply bind_inv in H as [([] & w2 & Hcommit & H) | (e & Hcommit & _)];
          unfold db_commit in Hcommit;
          destruct (refusal E (w_pending w1)); try discriminate.
        -- injection Hcommit as <-. injection H as _ <-. exact Gc.
        -- injection Hcommit as _ <-. exact Gc.
      * exists started, [], rowss, css.
        split; [exact Hs |].
        apply bind_inv in H as [([] & w2 & Hcommit & H) | (e & Hcommit & ->)];
          unfold db_commit in Hcommit;
          destruct (refusal E (w_pending w1)); try discriminate.
        -- injection Hcommit as <-. injection H as <- <-. simpl.
           split; [exact Gcalls |]. split; [exact Hreq |].
           split; [reflexivity |]. split; [reflexivity |].
           split; [rewrite Gd, Gm, Gp; reflexivity |].
           split; [reflexivity |]. split; [exact HF |].
           eexists. reflexivity.
        -- injection Hcommit as _ <-. simpl.
           split; [exact Gcalls |]. split; [exact Hreq |].
           left. rewrite Gm. reflexivity.
    + apply incentives_loop_spec in Hloop
        as (started & rest & rowss & css & Hs & Hg & Hreq & _).
      destruct Hg as (Gi & Gc & Gm & Gp & Gcalls & Gd). simpl in *.
      split; [exact Gi |]. split; [exact Gc |].
      exists started, rest, rowss, css.
      split; [exact Hs |]. split; [exact Gcalls |]. split; [exact Hreq |].
      left. rewrite Gm. reflexivity.
Qed.

End OrchestratorRun.

(** On a new session the run that raises leaves the table empty. *)
Lemma raised_run_table (E : Externals) (w w' : World) :
  w_pending w = [] ->
  w_matches w' = w_pending w
  \/ (refusal E (w_pending w) <> None /\ w_matches w' = w_matches w) ->
  w_matches w' = [].
Proof.
  intros Hp [H | [H _]]; [congruence |].
  rewrite Hp in H. simpl in H. congruence.
Qed.

(** ** Runs that differ only in their requests and their output *)

Lemma respects_ret {A : Type} (a : A) : respects (ret a).
Proof. intros w1 w2 H. simpl. auto. Qed.

Lemma respects_lift {A : Type} (r : result A) : respects (lift r).
Proof. intros w1 w2 H. simpl. auto. Qed.

Lemma respects_print (m : msg) : respects (print m).
Proof. intros w1 w2 H. simpl. split; [reflexivity | exact H]. Qed.

Lemma respects_db_add (m : Match) : respects (db_add m).
Proof.
  intros w1 w2 (A1 & A2 & A3 & A4 & A5). simpl. split; [reflexivity |].
  unfold same_db. simpl. rewrite A4. auto 10.
Qed.

Lemma respects_db_commit (E : Externals) : respects (db_commit E).
Proof.
  intros w1 w2 (A1 & A2 & A3 & A4 & A5). unfold db_commit. rewrite A4.
  destruct (refusal E (w_pending w2)); simpl; (split; [reflexivity |]);
    unfold same_db; simpl; rewrite ?A3, ?A5; auto 10.
Qed.

Lemma respects_bind {A B : Type} (m : M A) (k : A -> M B) :
  respects m -> (forall a, respects (k a)) -> respects (bind m k).
Proof.
  intros Hm Hk w1 w2 H. unfold bind.
  destruct (Hm w1 w2 H) as [Hr Hw].
  destruct (m w1) as [[a | e] w1'], (m w2) as [[a' | e'] w2'];
    simpl in Hr, Hw; try discriminate.
  - injection Hr as <-. apply Hk, Hw.
  - injection Hr as <-. simpl. auto.
Qed.

Lemma respects_for_each {A S : Type} (body : S -> A -> M S) (l : list A) (acc : S) :
  (forall s x, respects (body s x)) -> respects (for_each body l acc).
Proof.
  intros Hb. revert acc. induction l as [| x rest IH]; intros acc; simpl.
  - apply respects_ret.
  - apply respects_bind; auto.
Qed.

Section Simulation.

Context (E : Externals).
Hypothesis stub : deterministic_stub E.

Lemma respects_adapter (incentive : Incentive) (batch : list Company) :
  respects (score_companies_for_incentive E incentive batch).
Proof.
  intros w1 w2 (A1 & A2 & A3 & A4 & A5).
  unfold score_companies_for_incentive, bind, record_call, lift.
  destruct (loads_column E (ai_description incentive)) as [sd | e]; cbn [rbind].
  2:{ simpl. unfold same_db. simpl. auto 10. }
  destruct (py_getitem sd "object") as [o | e].
  2:{ simpl. unfold same_db. simpl. auto 10. }
  destruct (py_getitem sd "criterios") as [c | e].
  2:{ simpl. unfold same_db. simpl. auto 10. }
  rewrite (stub (List.length (w_calls w1)) (List.length (w_calls w2))).
  destruct (generate_content E _ o c _) as [text | e];
    [destruct (json_loads E text) |]; simpl; unfold same_db; simpl; auto 10.
Qed.

Lemma respects_store_match (incentive : Incentive) (total : Z) (item : json) :
  respects (store_match E incentive total item).
Proof.
  unfold store_match.
  apply respects_bind; [apply respects_lift | intros nif].
  apply respects_bind; [apply respects_lift | intros s].
  apply respects_bind; [apply respects_db_add | intros _].
  apply respects_bind; [apply respects_print | intros _].
  apply respects_ret.
Qed.

Lemma respects_match_incentive (companies : list Company) (k total : Z)
    (incentive : Incentive) :
  respects (match_incentive E companies k total incentive).
Proof.
  unfold match_incentive.
  apply respects_bind; [apply respects_print | intros _].
  destruct (loads_column E (ai_description incentive)) as [details | e].
  2:{ destruct (caught_on_loads e); [| apply respects_lift].
      apply respects_bind; [apply respects_print | intros _; apply respects_ret]. }
  apply respects_bind; [apply respects_lift | intros scores].
  destruct (is_nil (top_n_of scores)).
  { apply respects_bind; [apply respects_print | intros _; apply respects_ret]. }
  apply respects_bind; [apply respects_print | intros _].
  apply respects_bind; [apply respects_adapter | intros answer].
  destruct (truthy answer).
  - apply respects_bind; [apply respects_lift | intros top].
    apply respects_for_each. intros s x. apply respects_store_match.
  - apply respects_bind; [apply respects_print | intros _; apply respects_ret].
Qed.

End Simulation.

(** ** The run after its clearing step *)

Lemma respects_matching_tail (E : Externals) (k : Z) (companies : list Company)
    (incentives : list Incentive) :
  deterministic_stub E -> respects (matching_tail E k companies incentives).
Proof.
  intros stub. unfold matching_tail.
  apply respects_bind.
  { apply respects_for_each. intros s x. apply respects_match_incentive, stub. }
  intros total.
  apply respects_bind; [apply respects_db_commit | intros _].
  apply respects_bind; [apply respects_print | intros _; apply respects_ret].
Qed.

(** ** The rows of one incentive in the table *)

Lemma rows_for_owned (incentive : Incentive) (rows : list Match) :
  owned_by incentive rows -> rows_for incentive rows = rows.
Proof.
  unfold rows_for. induction 1 as [| row rows Hrow _ IH]; simpl; trivial.
  rewrite Hrow, Z.eqb_refl, IH. reflexivity.
Qed.

Lemma rows_for_others (incentive : Incentive) (incentives : list Incentive)
    (rowss : list (list Match)) :
  Forall2 owned_by incentives rowss ->
  ~ In (incentive_id incentive) (map incentive_id incentives) ->
  rows_for incentive (List.concat rowss) = [].
Proof.
  unfold rows_for. induction 1 as [| i rows incs rowss Hi _ IH]; simpl; trivial.
  intros Hn. rewrite filter_app, IH by tauto. rewrite app_nil_r.
  clear IH. induction Hi as [| row rows Hrow _ IH']; simpl; trivial.
  rewrite IH'. destruct (Z.eqb_spec (m_incentive_id row) (incentive_id incentive));
    trivial.
  exfalso. apply Hn. left. congruence.
Qed.

(** With distinct identifiers, the rows that reference an incentive are the
    rows its turn of the loop left. *)
Lemma rows_for_concat (incentive : Incentive) (incentives : list Incentive)
    (rowss : list (list Match)) :
  NoDup (map incentive_id incentives) ->
  Forall2 owned_by incentives rowss ->
  In incentive incentives ->
  In (incentive, rows_for incentive (List.concat rowss)) (combine incentives rowss).
Proof.
  intros Hnd HF. induction HF as [| i rows incs rowss Hi HF IH]; simpl;
    [contradiction |].
  inversion Hnd as [| ? ? Hni Hnd']; subst.
  unfold rows_for in *. rewrite filter_app.
  intros [-> | Hin].
  - left. fold (rows_for incentive rows). rewrite (rows_for_owned _ _ Hi).
    fold (rows_for incentive (List.concat rowss)).
    rewrite (rows_for_others _ _ _ HF Hni), app_nil_r. reflexivity.
  - right.
    assert (Hne : incentive_id i <> incentive_id incentive).
    { intros Heq. apply Hni. rewrite Heq. apply in_map, Hin. }
    assert (Hnone : filter (fun row => m_incentive_id row =? incentive_id incentive)
                           rows = []).
    { clear - Hi Hne. induction Hi as [| row rows Hrow _ IH']; simpl; trivial.
      rewrite IH'.
      destruct (Z.eqb_spec (m_incentive_id row) (incentive_id incentive)); trivial.
      congruence. }
    rewrite Hnone. simpl. apply IH; assumption.
Qed.

Lemma Forall2_combine_In {A B : Type} (R : A -> B -> Prop) (l : list A) (l' : list B)
    (a : A) (b : B) :
  Forall2 R l l' -> In (a, b) (combine l l') -> R a b.
Proof.
  induction 1 as [| x y l l' Hxy _ IH]; simpl; [contradiction |].
  intros [H | H]; [injection H as <- <-; assumption | auto].
Qed.

Section RowFacts.

Context (E : Externals).

Lemma rows_of_incentive_facts (companies : list Company) (k : Z)
    (incentive : Incentive) (rows : list Match) :
  rows_of_incentive E companies k incentive rows ->
  owned_by incentive rows
  /\ (0 <= k -> (List.length rows <= Z.to_nat k)%nat)
  /\ StronglySorted (desc m_score) rows
  /\ Forall (fun row => fgt (m_score row) (Fin 0) = true
                        /\ from_semantic_answer E companies incentive row) rows.
Proof.
  intros (n & [-> | (details & scores & answer & top & Hd & Hs & Ha & Ht & Hr)]).
  { repeat split; try constructor. simpl. lia. }
  destruct (rows_of_top_k E incentive k answer top rows Ht Hr) as (Hlen & Hsort & Hall & _).
  split.
  { eapply Forall_impl; [| exact Hall]. cbv beta. tauto. }
  split; [exact Hlen |]. split; [exact Hsort |].
  eapply Forall_impl; [| exact Hall]. cbv beta.
  intros row (_ & Hpos & items & item & Hit & Hin & Hnif & Hsc).
  split; [exact Hpos |].
  exists n, details, (top_n_of scores), answer, items, item.
  repeat split; trivial. apply top_n_of_rule_candidates, Hs.
Qed.

End RowFacts.

(** ** The semantic adapter and its contract *)

Section AdapterFacts.

Context (E : Externals).

Lemma adapter_answer_cases (n : nat) (incentive : Incentive) (batch : list Company)
    (answer : json) :
  adapter_answer E n incentive batch = Ok answer ->
  answer = zero_scores batch
  \/ exists o c text,
       generate_content E n o c (map summary_of batch) = Ok text
       /\ json_loads E text = Ok answer.
Proof.
  unfold adapter_answer.
  destruct (loads_column E (ai_description incentive)) as [sd |]; cbn [rbind];
    [| discriminate].
  destruct (py_getitem sd "object") as [o |]; cbn [rbind]; [| discriminate].
  destruct (py_getitem sd "criterios") as [c |]; cbn [rbind]; [| discriminate].
  destruct (generate_content E n o c _) as [text |] eqn:Hg.
  - destruct (json_loads E text) as [v |] eqn:Hl; intros H; injection H as <-.
    + right. eauto.
    + left. reflexivity.
  - intros H; injection H as <-. left. reflexivity.
Qed.

(** When the language model raises, or answers a text on which
    [json.loads] raises, the adapter returns a zero for every candidate. *)
Lemma adapter_answer_degrades (n : nat) (incentive : Incentive)
    (batch : list Company) (sd o c : json) :
  loads_column E (ai_description incentive) = Ok sd ->
  py_getitem sd "object" = Ok o ->
  py_getitem sd "criterios" = Ok c ->
  match generate_content E n o c (map summary_of batch) with
  | Ok text => is_ok (json_loads E text) = false
  | Raise _ => True
  end ->
  adapter_answer E n incentive batch = Ok (zero_scores batch).
Proof.
  intros Hsd Ho Hc. unfold adapter_answer. rewrite Hsd. cbn [rbind].
  rewrite Ho. cbn [rbind]. rewrite Hc. cbn [rbind].
  destruct (generate_content E n o c _) as [text |]; [| trivial].
  destruct (json_loads E text); [discriminate | reflexivity].
Qed.

(** The zeros of the fallback all fall to the filter of line 103. *)
Lemma zero_scores_leave_nothing (k : Z) (batch : list Company) :
  top_k_of E k (zero_scores batch) = Ok [].
Proof.
  unfold top_k_of, zero_scores. cbn [py_iter rbind].
  assert (Hf : filter_r
                 (fun item => (s <- item_score E item ;; Ok (fgt s (Fin 0)))%result)
                 (map (fun company =>
                         JDict [("nif", JStr (nif_code company));
                                ("score", JFloat (Fin 0))]) batch)
               = Ok []).
  { induction batch as [| c rest IH]; simpl; [reflexivity |].
    simpl in IH. rewrite IH. reflexivity. }
  rewrite Hf. cbn [rbind]. unfold sorted_desc_r, slice_to. simpl.
  destruct (0 <=? k); [rewrite firstn_nil |]; reflexivity.
Qed.

(** Under the contract, the rows of an incentive name no company twice and
    carry scores between 0 and 1. *)
Lemma rows_within_contract (companies : list Company) (k : Z)
    (incentive : Incentive) (rows : list Match) :
  scorer_contract E ->
  rows_of_incentive E companies k incentive rows ->
  NoDup (map m_company_nif rows)
  /\ Forall (fun row => flt (m_score row) (Fin 0) = false
                        /\ flt (Fin 1) (m_score row) = false) rows.
Proof.
  intros Hc (n & [-> | (details & scores & answer & top & Hd & Hs & Ha & Ht & Hr)]).
  { split; constructor. }
  apply adapter_answer_cases in Ha as [-> | (o & c & text & Hg & Hl)].
  { rewrite zero_scores_leave_nothing in Ht. injection Ht as <-.
    simpl in Hr. injection Hr as <-. split; constructor. }
  destruct (Hc _ _ _ _ _ _ Hg Hl) as (items & -> & Hitems & Hnd).
  destruct (rows_of_top_k E incentive k (JList items) top rows Ht Hr)
    as (_ & _ & Hall & Hnodup).
  split; [apply (Hnodup items eq_refl Hnd) |].
  eapply Forall_impl; [| exact Hall]. cbv beta.
  intros row (_ & _ & items' & item & Hit & Hin & _ & Hsc).
  simpl in Hit. injection Hit as <-.
  rewrite Forall_forall in Hitems.
  destruct (Hitems item Hin) as (nif & s & _ & Hs' & H0 & H1).
  rewrite Hsc in Hs'. injection Hs' as <-. auto.
Qed.

End AdapterFacts.

(** With distinct incentive identifiers, rows that name no company twice
    within an incentive name no pair twice in the table. *)
Lemma pairs_NoDup (incentives : list Incentive) (rowss : list (list Match)) :
  NoDup (map incentive_id incentives) ->
  Forall2 (fun incentive rows =>
             owned_by incentive rows /\ NoDup (map m_company_nif rows))
          incentives rowss ->
  NoDup (map (fun row => (m_incentive_id row, m_company_nif row))
             (List.concat rowss)).
Proof.
  intros Hnd HF. induction HF as [| i rows incs rowss [Hown Hrows] HF IH]; simpl;
    [constructor |].
  inversion Hnd as [| ? ? Hni Hnd']; subst.
  rewrite map_app. apply NoDup_app.
  - apply (NoDup_map_inv snd). rewrite map_map. simpl. exact Hrows.
  - apply IH, Hnd'.
  - intros [id nif] Hin Hin'.
    apply in_map_iff in Hin as (row & Hrow & Hin).
    injection Hrow as <- <-.
    unfold owned_by in Hown. rewrite Forall_forall in Hown.
    rewrite (Hown row Hin) in Hin'.
    apply Hni. clear - HF Hin'.
    induction HF as [| j rows' incs rowss [Hown' _] HF IH]; simpl in *;
      [contradiction |].
    rewrite map_app in Hin'. apply in_app_or in Hin' as [Hin' | Hin'].
    + left. apply in_map_iff in Hin' as (row' & Hrow' & Hin').
      injection Hrow' as Hid _.
      unfold owned_by in Hown'. rewrite Forall_forall in Hown'.
      rewrite <- (Hown' row' Hin'). exact Hid.
    + right. apply IH, Hin'.
Qed.

Lemma Forall2_concat_Forall {A B : Type} (P : A -> B -> Prop)
    (l : list A) (ll : list (list B)) :
  Forall2 (fun a bs => Forall (P a) bs) l ll ->
  Forall (fun b => exists a, In a l /\ P a b) (List.concat ll).
Proof.
  induction 1 as [| a bs l ll Hbs _ IH]; simpl; [constructor |].
  apply Forall_app. split.
  - eapply Forall_impl; [| exact Hbs]. intros b Hb. exists a. simpl. auto.
  - eapply Forall_impl; [| exact IH]. intros b (a' & Ha & Hb). exists a'.
    simpl. auto.
Qed.

(** * The claims *)

(** C1 (the code departs from it).  The scorer is not total on dicts with
    malformed sub-fields: when the list under [caes] holds an element that
    cannot be hashed, here the list [["62"]], [set(caes_value)] raises
    [TypeError], whatever the company and the externals. *)
Theorem calculate_match_score_raises_on_nested_codes
    (E : Externals) (company : Company) :
  calculate_match_score E (JDict [("caes", JList [JList [JStr "62"]])]) company
  = Raise TypeError.
Proof. reflexivity. Qed.

(** C10.  For every criteria dict and every company whose employee count is
    an integer, a score that the scorer returns is one of the seven values
    0, 0.2, 0.3, 0.5, 0.7, 0.8 and 1: it is the sum of a subset of the
    weights 50, 30 and 20 over 100, and rounding it to four decimals leaves
    it as it is; the scorer returns no score only on an unhashable code of
    the incentive, or when [json.loads] raises on the secondary codes of
    the company an exception that line 26 does not catch.  Each of the
    seven values is the score of some pair. *)
Theorem score_is_one_of_seven_values :
  (forall (E : Externals) (d : list (string * json)) (company : Company) (n : Z),
      latest_number_of_employees company = Some n ->
      match calculate_match_score E (JDict d) company with
      | Ok v =>
          In v score_values
          /\ exists z, In z weight_sums
                       /\ raw_score E (JDict d) company = Ok z
                       /\ v = round4 (Fin (inject_Z z / inject_Z max_score))
                       /\ feq v (Fin (inject_Z z / inject_Z max_score)) = true
      | Raise e => (e = TypeError /\ unhashable_caes d) \/ codes_raise E company e
      end)
  /\ (forall v, In v score_values ->
                exists d company,
                  calculate_match_score E_down (JDict d) company = Ok v).
Proof.
  split.
  - intros E d company n Hn.
    destruct (raw_score_cases E d company n Hn)
      as [[Hu Hr] | [[_ (e & He & Hr)] | [_ (_ & z & Hz & Hr)]]];
      unfold calculate_match_score; rewrite Hr; cbn [rbind].
    + auto.
    + auto.
    + destruct (round4_weight_sum z Hz) as [Hin Heq].
      split; [exact Hin |]. exists z. auto.
  - unfold score_values. simpl.
    intros v [<- | [<- | [<- | [<- | [<- | [<- | [<- | []]]]]]]].
    + exists (criteria_for "41"), (company_for 300 "Lisboa"). reflexivity.
    + exists (criteria_for "41"), (company_for 10 "Lisboa"). reflexivity.
    + exists (criteria_for "41"), (company_for 300 "Porto"). reflexivity.
    + exists (criteria_for "62"), (company_for 300 "Lisboa"). reflexivity.
    + exists (criteria_for "62"), (company_for 10 "Lisboa"). reflexivity.
    + exists (criteria_for "62"), (company_for 300 "Porto"). reflexivity.
    + exists (criteria_for "62"), (company_for 10 "Porto"). reflexivity.
Qed.

(** The scenario of the specification: company B scores 0.5. *)
Lemma score_is_one_of_seven_values_witness :
  match calculate_match_score E_down (JDict criteria_x) company_b with
  | Ok v =>
      In v score_values
      /\ exists z, In z weight_sums
                   /\ raw_score E_down (JDict criteria_x) company_b = Ok z
                   /\ v = round4 (Fin (inject_Z z / inject_Z max_score))
                   /\ feq v (Fin (inject_Z z / inject_Z max_score)) = true
  | Raise e =>
      (e = TypeError /\ unhashable_caes criteria_x) \/ codes_raise E_down company_b e
  end.
Proof.
  apply (proj1 score_is_one_of_seven_values E_down criteria_x company_b 10).
  reflexivity.
Defined.

(** C8 (the code departs from it).  Malformed secondary codes are not always
    treated as the empty set: from the list [["62010", []]] the code
    "62010" enters the company's code set before the unhashable element
    stops [update], so the company is awarded the industry weight of an
    incentive for "62010", which its primary code "41" alone does not earn. *)
Theorem malformed_secondary_codes_still_count :
  json_loads E_down (dq "['62010', []]") = Ok (JList [JStr "62010"; JList []])
  /\ company_caes E_down company_c = Ok [JStr "41"; JStr "62010"]
  /\ cae_points [JStr "62010"] [JStr "41"; JStr "62010"] = weight_cae
  /\ cae_points [JStr "62010"] [JStr "41"] = 0
  /\ raw_score E_down (JDict [("caes", JList [JStr "62010"])]) company_c = Ok 100
  /\ raw_score E_down (JDict [("caes", JList [JStr "62010"])]) company_b = Ok 50.
Proof. repeat split; reflexivity. Qed.

(** C4 (the code departs from it).  A payload of the language model that is
    JSON but no list of scores, here an error object, is handed back by the
    adapter as it is, not as zeros, and the orchestrator raises [TypeError]
    on it: the run stops after the table was cleared.  And for an incentive
    whose criteria lack the key [object], the adapter raises [KeyError]
    before its [try], whether the language model fails or not, and the run
    stops in the same way. *)
Theorem malformed_payload_stops_the_run :
  adapter_answer E_error 0 incentive_x [company_a; company_b]
  = Ok (JDict [("error", JStr "quota exceeded")])
  /\ fst (find_and_store_matches E_error 5 world_x) = Raise TypeError
  /\ w_matches (snd (find_and_store_matches E_error 5 world_x)) = []
  /\ adapter_answer E_down 0 incentive_bare [company_a] = Raise KeyError
  /\ fst (find_and_store_matches E_down 5 world_bare) = Raise KeyError.
Proof. repeat split; reflexivity. Qed.

(** C2.  In every run, the requests to the semantic adapter are those of the
    incentives the loop started on, in their order, and a run that returns
    has started on every incentive.  An incentive whose criteria load, and
    on which the scorer returns for every company, causes exactly the
    request that the rule stage decides: its batch is made of the
    companies whose deterministic score is strictly above 0.1, ranked by
    decreasing score with equal scores in the order of the company list,
    cut to the first 50; the request is made with that batch whenever the
    batch is not empty, and not made when it is.  An incentive whose
    criteria do not load, or on which the scorer raises, causes no
    request.  In the example, company A (score 1) is sent before company B
    (score 0.5), which comes first in the table. *)
Theorem rule_stage_feeds_one_request :
  (forall (E : Externals) (k : Z) (w : World),
      exists started rest css,
        w_incentives w = started ++ rest
        /\ w_calls (snd (find_and_store_matches E k w)) = w_calls w ++ List.concat css
        /\ Forall2 (one_request E (w_companies w)) started css
        /\ (rest = []
            \/ is_ok (fst (find_and_store_matches E k w)) = false
            \/ w_companies w = []))
  /\ w_calls (snd (find_and_store_matches E_down 5 world_y))
     = [(incentive_x, [company_a; company_b])].
Proof.
  split; [| reflexivity]. intros E k w.
  destruct (find_and_store_matches E k w) as [r w'] eqn:H.
  apply find_and_store_matches_spec in H
    as [(Hempty & -> & Hg & _)
       | (Hi & Hc & _ & _ & started & rest & rowss & css & Hs & Hcalls & Hreq & Hr)].
  - destruct Hg as (_ & _ & _ & _ & Hcalls & _). simpl in *.
    exists [], (w_incentives w), []. simpl.
    split; [reflexivity |]. split; [exact Hcalls |]. split; [constructor |].
    destruct Hempty as [-> | ->]; auto.
  - exists started, rest, css. simpl.
    split; [exact Hs |]. split; [exact Hcalls |]. split; [exact Hreq |].
    destruct r as [v | e]; [| auto].
    left. tauto.
Qed.

(** C7, amended: with no incentive or no company the run returns [None],
    not 0; it raises nothing and changes neither the table of matches nor
    the session, and asks nothing of the semantic adapter: it only prints. *)
Theorem empty_input_changes_nothing (E : Externals) (k : Z) (w : World) :
  w_incentives w = [] \/ w_companies w = [] ->
  fst (find_and_store_matches E k w) = Ok JNull
  /\ w_matches (snd (find_and_store_matches E k w)) = w_matches w
  /\ w_pending (snd (find_and_store_matches E k w)) = w_pending w
  /\ w_calls (snd (find_and_store_matches E k w)) = w_calls w
  /\ w_incentives (snd (find_and_store_matches E k w)) = w_incentives w
  /\ w_companies (snd (find_and_store_matches E k w)) = w_companies w.
Proof.
  intros H. rewrite (find_and_store_matches_empty E k w H). simpl. auto 10.
Qed.

(** A run without companies keeps the row it found. *)
Lemma empty_input_changes_nothing_witness :
  fst (find_and_store_matches E_good 5 world_without_companies) = Ok JNull
  /\ w_matches (snd (find_and_store_matches E_good 5 world_without_companies))
     = [old_row].
Proof.
  destruct (empty_input_changes_nothing E_good 5 world_without_companies)
    as (H1 & H2 & _).
  - right. reflexivity.
  - split; [exact H1 | exact H2].
Defined.

(** C7 as stated fails: on an empty company set the run returns [None],
    which is not the integer 0. *)
Lemma empty_input_does_not_return_zero :
  fst (find_and_store_matches E_good 5 world_without_companies) <> Ok (JInt 0).
Proof. vm_compute. discriminate. Qed.

(** C6, amended: the run returns [None] whenever it returns; the number of
    rows it persisted is not returned but printed: on inputs that are not
    empty and a new session, the last line of output carries
    [total_matches_found], which is the number of rows of the table. *)
Theorem run_returns_none_and_prints_count (E : Externals) (k : Z) (w : World) (v : json) :
  w_pending w = [] ->
  fst (find_and_store_matches E k w) = Ok v ->
  v = JNull
  /\ (w_incentives w = [] \/ w_companies w = []
      \/ exists out,
           w_stdout (snd (find_and_store_matches E k w))
           = out ++ [MsgComplete
                       (Z.of_nat (List.length
                          (w_matches (snd (find_and_store_matches E k w)))))]).
Proof.
  intros Hp Hv.
  destruct (find_and_store_matches E k w) as [r w'] eqn:H. simpl in *. subst r.
  apply find_and_store_matches_spec in H
    as [(Hempty & Hr & _)
       | (Hi & Hc & _ & _ & started & rest & rowss & css & _ & _ & _ & Hr)].
  - injection Hr as ->. split; [reflexivity | tauto].
  - destruct Hr as (-> & _ & Hm & _ & _ & out & Hout).
    split; [reflexivity |]. right. right.
    exists out. rewrite Hm, Hp. exact Hout.
Qed.

(** The run of the example prints its count of rows. *)
Lemma run_returns_none_and_prints_count_witness :
  JNull = JNull
  /\ (w_incentives world_x = [] \/ w_companies world_x = []
      \/ exists out,
           w_stdout (snd (find_and_store_matches E_good 5 world_x))
           = out ++ [MsgComplete
                       (Z.of_nat (List.length
                          (w_matches (snd (find_and_store_matches E_good 5 world_x)))))]).
Proof.
  apply (run_returns_none_and_prints_count E_good 5 world_x JNull);
    reflexivity.
Defined.

(** C6 as stated fails: the run that persists two rows returns [None], not
    the integer 2. *)
Lemma run_does_not_return_the_count :
  List.length (w_matches (snd (find_and_store_matches E_good 5 world_x))) = 2%nat
  /\ fst (find_and_store_matches E_good 5 world_x) = Ok JNull
  /\ fst (find_and_store_matches E_good 5 world_x) <> Ok (JInt 2).
Proof. vm_compute. repeat split; discriminate. Qed.

(** C3.  After a run with [k = 5] on a new session, with distinct incentive
    identifiers and at least one company, at most 5 rows of the table
    reference an incentive of the run; each of them carries, with the
    company identifier, the score of an item that the semantic adapter
    answered for the candidates of the rule stage (not a rule score); each
    score is strictly positive; and the rows come by decreasing score. *)
Theorem top_five_rows_per_incentive (E : Externals) (w : World) (incentive : Incentive) :
  w_pending w = [] ->
  NoDup (map incentive_id (w_incentives w)) ->
  In incentive (w_incentives w) ->
  w_companies w <> [] ->
  let rows := rows_for incentive (w_matches (snd (find_and_store_matches E 5 w))) in
  (List.length rows <= 5)%nat
  /\ StronglySorted (desc m_score) rows
  /\ Forall (fun row =>
               fgt (m_score row) (Fin 0) = true
               /\ from_semantic_answer E (w_companies w) incentive row) rows.
Proof.
  intros Hp Hnd Hin Hc rows. subst rows.
  destruct (find_and_store_matches E 5 w) as [r w'] eqn:H. simpl.
  apply find_and_store_matches_spec in H
    as [([Hempty | Hempty] & _)
       | (_ & _ & _ & _ & started & rest & rowss & css & Hs & _ & _ & Hr)].
  - rewrite Hempty in Hin. contradiction.
  - contradiction.
  - destruct r as [v | e].
    2:{ apply (raised_run_table E w w' Hp) in Hr. rewrite Hr. simpl.
        split; [lia |]. split; constructor. }
    destruct Hr as (_ & -> & Hm & _ & HF & _).
    rewrite app_nil_r in Hs. subst started.
    rewrite Hm, Hp. simpl.
    assert (HF' : Forall2 (fun inc rows =>
                             owned_by inc rows
                             /\ (List.length rows <= 5)%nat
                             /\ StronglySorted (desc m_score) rows
                             /\ Forall (fun row =>
                                  fgt (m_score row) (Fin 0) = true
                                  /\ from_semantic_answer E (w_companies w) inc row)
                                  rows)
                          (w_incentives w) rowss).
    { eapply Forall2_impl; [| exact HF]. cbv beta.
      intros inc rows Hrows.
      apply rows_of_incentive_facts in Hrows as (H1 & H2 & H3 & H4).
      repeat split; trivial. apply (H2 ltac:(lia)). }
    assert (Hown : Forall2 owned_by (w_incentives w) rowss).
    { eapply Forall2_impl; [| exact HF']. cbv beta. tauto. }
    pose proof (rows_for_concat incentive (w_incentives w) rowss Hnd Hown Hin) as Hrows.
    apply (Forall2_combine_In _ _ _ _ _ HF') in Hrows. tauto.
Qed.

(** The rows of the example incentive. *)
Lemma top_five_rows_per_incentive_witness :
  let rows :=
    rows_for incentive_x (w_matches (snd (find_and_store_matches E_good 5 world_x))) in
  (List.length rows <= 5)%nat
  /\ StronglySorted (desc m_score) rows
  /\ Forall (fun row =>
               fgt (m_score row) (Fin 0) = true
               /\ from_semantic_answer E_good (w_companies world_x) incentive_x row)
            rows.
Proof.
  apply (top_five_rows_per_incentive E_good world_x incentive_x).
  - reflexivity.
  - simpl. constructor; [intros [] | constructor].
  - simpl. left. reflexivity.
  - simpl. discriminate.
Defined.

(** C5, amended: after a run on a new session with at least one incentive
    and one company, the table holds only rows of that run: it is the
    same whatever the table held before, and each row carries a strictly
    positive score answered by the semantic adapter for an incentive of
    the run.  When every answer of the language model keeps the scorer's
    contract (scores between 0 and 1, no company twice), every score of
    the table lies in [0,1], and with distinct incentive identifiers no
    pair of incentive and company has two rows. *)
Theorem table_holds_the_last_run (E : Externals) (k : Z) (w : World) :
  w_pending w = [] ->
  w_incentives w <> [] ->
  w_companies w <> [] ->
  let table := w_matches (snd (find_and_store_matches E k w)) in
  (forall old,
      w_matches (snd (find_and_store_matches E k (with_matches w old))) = table)
  /\ Forall (fun row =>
               fgt (m_score row) (Fin 0) = true
               /\ exists incentive,
                    In incentive (w_incentives w)
                    /\ m_incentive_id row = incentive_id incentive
                    /\ from_semantic_answer E (w_companies w) incentive row) table
  /\ (scorer_contract E ->
      Forall (fun row => flt (m_score row) (Fin 0) = false
                         /\ flt (Fin 1) (m_score row) = false) table)
  /\ (scorer_contract E ->
      NoDup (map incentive_id (w_incentives w)) ->
      NoDup (map (fun row => (m_incentive_id row, m_company_nif row)) table)).
Proof.
  intros Hp Hi Hc table. subst table.
  split.
  { intros old.
    assert (Hf : refusal E (w_pending w) = None).
    { rewrite Hp. reflexivity. }
    rewrite (find_and_store_matches_nonempty E k w Hi Hc Hf).
    rewrite (find_and_store_matches_nonempty E k (with_matches w old) Hi Hc Hf).
    reflexivity. }
  destruct (find_and_store_matches E k w) as [r w'] eqn:H. simpl.
  apply find_and_store_matches_spec in H
    as [([Hempty | Hempty] & _)
       | (_ & _ & _ & _ & started & rest & rowss & css & Hs & _ & _ & Hr)];
    [contradiction | contradiction |].
  destruct r as [v | e].
  2:{ apply (raised_run_table E w w' Hp) in Hr. rewrite Hr.
      repeat split; intros; constructor. }
  destruct Hr as (_ & -> & Hm & _ & HF & _).
  rewrite app_nil_r in Hs. subst started. rewrite Hm, Hp. simpl.
  split.
  { assert (HF' : Forall2 (fun inc rows =>
                             Forall (fun row =>
                                       fgt (m_score row) (Fin 0) = true
                                       /\ m_incentive_id row = incentive_id inc
                                       /\ from_semantic_answer E (w_companies w) inc row)
                                    rows)
                          (w_incentives w) rowss).
    { eapply Forall2_impl; [| exact HF]. cbv beta.
      intros inc rows Hrows.
      apply rows_of_incentive_facts in Hrows as (H1 & _ & _ & H4).
      unfold owned_by in H1. rewrite Forall_forall in *.
      intros row Hin. destruct (H4 row Hin). auto. }
    apply Forall2_concat_Forall in HF'.
    eapply Forall_impl; [| exact HF']. cbv beta.
    intros row (inc & Hin & H1 & H2 & H3). eauto. }
  split.
  { intros Hcontract.
    assert (HF' : Forall2 (fun (inc : Incentive) rows =>
                             Forall (fun row =>
                                       flt (m_score row) (Fin 0) = false
                                       /\ flt (Fin 1) (m_score row) = false) rows)
                          (w_incentives w) rowss).
    { eapply Forall2_impl; [| exact HF]. cbv beta.
      intros inc rows Hrows.
      apply (rows_within_contract E _ _ _ _ Hcontract Hrows). }
    apply Forall2_concat_Forall in HF'.
    eapply Forall_impl; [| exact HF']. cbv beta.
    intros row (inc & _ & Hrow). exact Hrow. }
  intros Hcontract Hnd. apply (pairs_NoDup (w_incentives w)); [exact Hnd |].
  eapply Forall2_impl; [| exact HF]. cbv beta.
  intros inc rows Hrows. split.
  - apply (rows_of_incentive_facts E _ _ _ _ Hrows).
  - apply (rows_within_contract E _ _ _ _ Hcontract Hrows).
Qed.

(** The table of the example after its run. *)
Lemma table_holds_the_last_run_witness :
  let table := w_matches (snd (find_and_store_matches E_good 5 world_x)) in
  (forall old,
      w_matches (snd (find_and_store_matches E_good 5 (with_matches world_x old)))
      = table)
  /\ Forall (fun row =>
               fgt (m_score row) (Fin 0) = true
               /\ exists incentive,
                    In incentive (w_incentives world_x)
                    /\ m_incentive_id row = incentive_id incentive
                    /\ from_semantic_answer E_good (w_companies world_x) incentive row)
            table
  /\ (scorer_contract E_good ->
      Forall (fun row => flt (m_score row) (Fin 0) = false
                         /\ flt (Fin 1) (m_score row) = false) table)
  /\ (scorer_contract E_good ->
      NoDup (map incentive_id (w_incentives world_x)) ->
      NoDup (map (fun row => (m_incentive_id row, m_company_nif row)) table)).
Proof.
  apply (table_holds_the_last_run E_good 5 world_x).
  - reflexivity.
  - simpl. discriminate.
  - simpl. discriminate.
Defined.

(** C5 as stated fails.  A run on an empty company set leaves in the table
    the row of an earlier run; and a run whose language model answers a
    score of 1.5 and the same company twice persists both rows: a score
    outside [0,1] and two rows for one pair. *)
Lemma table_invariant_fails :
  w_matches (snd (find_and_store_matches E_good 5 world_without_companies))
  = [old_row]
  /\ w_matches (snd (find_and_store_matches E_wild 5 world_x))
     = [mkMatch 1 (JStr "500100200") (Fin (3 # 2));
        mkMatch 1 (JStr "500100200") (Fin (1 # 2))]
  /\ flt (Fin 1) (Fin (3 # 2)) = true.
Proof. repeat split; reflexivity. Qed.

(** C9.  With a deterministic stub as language model, running the matching
    twice in succession, each time in a session of its own, leaves the
    incentives and the companies as they were and yields after the second
    run the table of the first, with the same outcome. *)
Theorem rerun_gives_same_table (E : Externals) (k : Z) (w : World) :
  deterministic_stub E ->
  let first := run_in_session E k w in
  let second := run_in_session E k (snd first) in
  w_incentives (snd first) = w_incentives w
  /\ w_companies (snd first) = w_companies w
  /\ w_matches (snd second) = w_matches (snd first)
  /\ fst second = fst first.
Proof.
  intros stub. unfold run_in_session.
  destruct (find_and_store_matches E k (db_close w)) as [r1 w1] eqn:H1.
  cbn [fst snd].
  destruct (find_and_store_matches E k (db_close (db_close w1))) as [r2 w2] eqn:H2.
  cbn [fst snd db_close w_incentives w_companies w_matches].
  pose proof H1 as S1.
  apply find_and_store_matches_spec in S1
    as [(Hempty & _ & _ & _) | (Hi & Hc & Ei & Ec & _)].
  - cbn [db_close w_incentives w_companies] in Hempty.
    rewrite find_and_store_matches_empty in H1 by exact Hempty.
    injection H1 as <- <-.
    rewrite find_and_store_matches_empty in H2 by exact Hempty.
    injection H2 as <- <-. simpl. auto.
  - cbn [db_close w_incentives w_companies] in Hi, Hc, Ei, Ec.
    rewrite find_and_store_matches_nonempty in H1 by (assumption || reflexivity).
    rewrite find_and_store_matches_nonempty in H2
      by (reflexivity || (cbn [db_close w_incentives w_companies]; congruence)).
    cbn [db_close w_incentives w_companies] in H1, H2.
    rewrite Ei, Ec in H2.
    destruct (respects_matching_tail E k (w_companies w) (w_incentives w) stub
                (cleared k (db_close w)) (cleared k (db_close (db_close w1))))
      as [Hr Hw].
    { unfold same_db, cleared. simpl. auto 10. }
    rewrite H1, H2 in Hr, Hw. simpl in Hr.
    destruct Hw as (_ & _ & Hm & _). simpl in Hm. auto.
Qed.

(** The example run twice, with a language model that always answers the
    same text. *)
Lemma rerun_gives_same_table_witness :
  let first := run_in_session E_good 5 world_x in
  let second := run_in_session E_good 5 (snd first) in
  w_incentives (snd first) = w_incentives world_x
  /\ w_companies (snd first) = w_companies world_x
  /\ w_matches (snd second) = w_matches (snd first)
  /\ fst second = fst first.
Proof.
  apply (rerun_gives_same_table E_good 5 world_x).
  intros n m o c b. reflexivity.
Defined.

(** * Further properties of the matching *)

Section ScorerEdges.

Context (E : Externals).

(** A score that is returned comes from a sum of weights. *)
Lemma calculate_match_score_ok_inv (details : json) (company : Company) (v : pyfloat) :
  calculate_match_score E details company = Ok v ->
  exists z, In z weight_sums
            /\ raw_score E details company = Ok z
            /\ v = round4 (Fin (inject_Z z / inject_Z max_score)).
Proof.
  intros H.
  destruct details as [| | | | | | d];
    try (rewrite calculate_match_score_not_dict in H by exact I; discriminate).
  destruct (latest_number_of_employees company) as [n |] eqn:Hn.
  2:{ destruct (calculate_match_score_no_employee_count E d company Hn)
        as (e & He & _).
      rewrite He in H. discriminate. }
  destruct (raw_score_cases E d company n Hn)
    as [[_ Hr] | [[_ (e & _ & Hr)] | [_ (_ & z & Hz & Hr)]]];
    unfold calculate_match_score in H; rewrite Hr in H; cbn [rbind] in H;
    [discriminate | discriminate |].
  injection H as <-. exists z. auto.
Qed.

End ScorerEdges.

(** X1.  The threshold 0.1 of the rule stage separates the score 0 from all
    the others: a company passes it exactly when it earned at least one of
    the three weights. *)
Theorem threshold_keeps_every_earned_weight
    (E : Externals) (details : json) (company : Company) (v : pyfloat) :
  calculate_match_score E details company = Ok v ->
  (fgt v MIN_RULE_SCORE = true
   <-> exists z, raw_score E details company = Ok z /\ 20 <= z).
Proof.
  intros H. destruct (calculate_match_score_ok_inv E details company v H)
    as (z & Hz & Hr & ->).
  split.
  - intros Hgt. exists z. split; [exact Hr |].
    revert Hz Hgt. unfold weight_sums. simpl.
    intros [<- | [<- | [<- | [<- | [<- | [<- | [<- | []]]]]]]];
      vm_compute; intros; congruence.
  - intros (z' & Hr' & Hz'). rewrite Hr in Hr'. injection Hr' as <-.
    revert Hz Hz'. unfold weight_sums. simpl.
    intros [<- | [<- | [<- | [<- | [<- | [<- | [<- | []]]]]]]];
      try reflexivity; intros; lia.
Qed.

(** Company B of the example earned two weights and passes. *)
Lemma threshold_keeps_every_earned_weight_witness :
  fgt (Fin (1 # 2)) MIN_RULE_SCORE = true
  <-> exists z, raw_score E_down (JDict criteria_x) company_b = Ok z /\ 20 <= z.
Proof.
  apply (threshold_keeps_every_earned_weight E_down (JDict criteria_x) company_b).
  reflexivity.
Defined.

(** X2.  Criteria that say nothing the scorer reads (no non-empty list
    under [caes], no string under [geographic_location] nor under
    [dimension]: keys absent, [null], or of another type) give the full
    score 1 to every company that has an employee count, unless
    [json.loads] raises on its secondary codes an exception that line 26
    does not catch: then the scorer raises that exception. *)
Theorem silent_criteria_match_every_company
    (E : Externals) (d : list (string * json)) (company : Company) (n : Z) :
  no_code_list d ->
  no_text_under "geographic_location" d ->
  no_text_under "dimension" d ->
  latest_number_of_employees company = Some n ->
  match company_caes E company with
  | Ok _ => calculate_match_score E (JDict d) company = Ok (Fin 1)
  | Raise e =>
      codes_raise E company e
      /\ calculate_match_score E (JDict d) company = Raise e
  end.
Proof.
  unfold no_code_list, no_text_under. intros Hc Hl Hd Hn.
  unfold calculate_match_score, raw_score, incentive_caes, location_points.
  cbn [py_get rbind].
  destruct (company_caes E company) as [caes | e] eqn:Hcomp.
  2:{ split; [apply company_caes_raises_iff, Hcomp |].
      destruct (assoc_get d "caes") as [[| | | | | [| x l] |] |];
        tauto || reflexivity. }
  assert (Hcaes : match match assoc_get d "caes" with
                        | Some v => v | None => JNull end with
                  | JList l => py_set l
                  | _ => Ok []
                  end = Ok []).
  { destruct (assoc_get d "caes") as [[| | | | | [| x l] |] |]; tauto || reflexivity. }
  rewrite Hcaes. cbn [rbind]. rewrite Hn. cbn [rbind].
  destruct (assoc_get d "geographic_location") as [[| | | | s | |] |];
    try contradiction;
    destruct (assoc_get d "dimension") as [[| | | | s' | |] |];
    try contradiction; reflexivity.
Qed.

(** The empty criteria record and company A. *)
Lemma silent_criteria_match_every_company_witness :
  calculate_match_score E_down (JDict []) company_a = Ok (Fin 1).
Proof.
  apply (silent_criteria_match_every_company E_down [] company_a 10);
    reflexivity || exact I.
Defined.

Lemma concat_length_bound {A : Type} (bound : nat) (ll : list (list A)) :
  Forall (fun l => (List.length l <= bound)%nat) ll ->
  (List.length (List.concat ll) <= bound * List.length ll)%nat.
Proof.
  induction 1 as [| l ll Hl _ IH]; simpl; [lia |].
  rewrite length_app. lia.
Qed.

Lemma Forall2_right_Forall {A B : Type} (R : A -> B -> Prop) (P : B -> Prop)
    (l : list A) (l' : list B) :
  (forall a b, R a b -> P b) -> Forall2 R l l' -> Forall P l'.
Proof. intros H. induction 1; constructor; eauto. Qed.

(** X3.  The run never writes to the incentives nor to the companies,
    whether it returns or raises. *)
Theorem run_leaves_inputs_unchanged (E : Externals) (k : Z) (w : World) :
  w_incentives (snd (find_and_store_matches E k w)) = w_incentives w
  /\ w_companies (snd (find_and_store_matches E k w)) = w_companies w.
Proof.
  destruct (find_and_store_matches E k w) as [r w'] eqn:H. simpl.
  apply find_and_store_matches_spec in H
    as [(_ & _ & (Hi & Hc & _) & _) | (_ & _ & Hi & Hc & _)]; auto.
Qed.

(** X4.  The rows of a run are committed all together or not at all: on a
    new session with at least one incentive and one company, a run that
    raises leaves the table of matches empty (the old rows were deleted and
    committed, the new ones never are), and a run that returns leaves no
    row uncommitted. *)
Theorem rows_are_committed_together (E : Externals) (k : Z) (w : World) :
  w_pending w = [] ->
  w_incentives w <> [] ->
  w_companies w <> [] ->
  if is_ok (fst (find_and_store_matches E k w))
  then w_pending (snd (find_and_store_matches E k w)) = []
  else w_matches (snd (find_and_store_matches E k w)) = [].
Proof.
  intros Hp Hi Hc.
  destruct (find_and_store_matches E k w) as [r w'] eqn:H. simpl.
  apply find_and_store_matches_spec in H
    as [([He | He] & _) | (_ & _ & _ & _ & started & rest & rowss & css & _ & _ & _ & Hr)];
    [contradiction | contradiction |].
  destruct r as [v | e]; simpl.
  - tauto.
  - apply (raised_run_table E w w' Hp), Hr.
Qed.

(** The run of the example that stops on the error payload. *)
Lemma rows_are_committed_together_witness :
  if is_ok (fst (find_and_store_matches E_error 5 world_x))
  then w_pending (snd (find_and_store_matches E_error 5 world_x)) = []
  else w_matches (snd (find_and_store_matches E_error 5 world_x)) = [].
Proof.
  apply (rows_are_committed_together E_error 5 world_x);
    [reflexivity | simpl; discriminate | simpl; discriminate].
Defined.

(** X5.  For any [k >= 0], a run on a new session leaves at most [k] rows
    per incentive: the table holds at most [k] times the number of
    incentives rows; with [k = 0] it is empty. *)
Theorem table_size_is_bounded (E : Externals) (k : Z) (w : World) :
  0 <= k ->
  w_pending w = [] ->
  w_incentives w <> [] ->
  w_companies w <> [] ->
  (List.length (w_matches (snd (find_and_store_matches E k w)))
   <= Z.to_nat k * List.length (w_incentives w))%nat.
Proof.
  intros Hk Hp Hi Hc.
  destruct (find_and_store_matches E k w) as [r w'] eqn:H. simpl.
  apply find_and_store_matches_spec in H
    as [([He | He] & _) | (_ & _ & _ & _ & started & rest & rowss & css & Hs & _ & _ & Hr)];
    [contradiction | contradiction |].
  destruct r as [v | e].
  2:{ apply (raised_run_table E w w' Hp) in Hr. rewrite Hr. simpl. lia. }
  destruct Hr as (_ & -> & Hm & _ & HF & _).
  rewrite app_nil_r in Hs. subst started. rewrite Hm, Hp. simpl.
  rewrite (Forall2_length_eq _ _ _ HF).
  apply concat_length_bound.
  eapply Forall2_right_Forall; [| exact HF]. cbv beta.
  intros inc rows Hrows.
  apply rows_of_incentive_facts in Hrows as (_ & Hlen & _). auto.
Qed.

(** The example with [k = 1]. *)
Lemma table_size_is_bounded_witness :
  (List.length (w_matches (snd (find_and_store_matches E_good 1 world_x)))
   <= Z.to_nat 1 * List.length (w_incentives world_x))%nat.
Proof.
  apply (table_size_is_bounded E_good 1 world_x);
    [lia | reflexivity | simpl; discriminate | simpl; discriminate].
Defined.

(** X6.  A run makes at most as many requests to the semantic adapter as
    there are incentives, each for an incentive of the run and with a
    batch of 1 to 50 companies, however many companies there are. *)
Theorem requests_are_bounded (E : Externals) (k : Z) (w : World) :
  exists requests,
    w_calls (snd (find_and_store_matches E k w)) = w_calls w ++ requests
    /\ (List.length requests <= List.length (w_incentives w))%nat
    /\ Forall (fun request =>
                 In (fst request) (w_incentives w)
                 /\ (1 <= List.length (snd request) <= 50)%nat) requests.
Proof.
  destruct (find_and_store_matches E k w) as [r w'] eqn:H. simpl.
  apply find_and_store_matches_spec in H
    as [(_ & _ & (_ & _ & _ & _ & Hcalls & _) & _)
       | (_ & _ & _ & _ & started & rest & rowss & css & Hs & Hcalls & Hreq & _)].
  - exists []. split; [exact Hcalls |]. split; [simpl; lia | constructor].
  - exists (List.concat css). split; [exact Hcalls |].
    assert (Hin : forall inc, In inc started -> In inc (w_incentives w)).
    { intros inc Hinc. rewrite Hs. apply in_or_app. auto. }
    assert (Hlen : (List.length started <= List.length (w_incentives w))%nat).
    { rewrite Hs, length_app. lia. }
    clear Hs Hcalls.
    assert (Hgoal : (List.length (List.concat css) <= List.length started)%nat
                    /\ Forall (fun request =>
                                 In (fst request) started
                                 /\ (1 <= List.length (snd request) <= 50)%nat)
                              (List.concat css)).
    { clear Hin Hlen.
      induction Hreq as [| inc cs started css Hcs _ IH]; simpl;
        [split; [lia | constructor] |].
      destruct IH as [IHlen IHall]. rewrite length_app.
      assert (Hone : cs = []
                     \/ exists batch, cs = [(inc, batch)]
                                      /\ (1 <= List.length batch <= 50)%nat).
      { unfold one_request in Hcs.
        destruct (loads_column E (ai_description inc)) as [details |]; [| auto].
        destruct Hcs as [[_ ->] | (batch & Hb & ->)]; [auto |].
        destruct Hb as (sc & kept & ranked & _ & _ & _ & _ & _ & _ & Hle).
        destruct batch as [| c batch]; [auto |].
        right. exists (c :: batch). simpl in *. split; [reflexivity | lia]. }
      split.
      - destruct Hone as [-> | (batch & -> & _)]; simpl; lia.
      - apply Forall_app. split.
        + destruct Hone as [-> | (batch & -> & Hlen)];
            constructor; [| constructor].
          simpl. auto.
        + eapply Forall_impl; [| exact IHall]. cbv beta. intros c [Hc Hl].
          simpl. auto. }
    destruct Hgoal as [Hl Ha]. split; [lia |].
    eapply Forall_impl; [| exact Ha]. cbv beta. intros c [Hc Hlc]. auto.
Qed.

(** X7.  While the language model is out of service (every request raises,
    or is answered by a text on which [json.loads] raises), no run persists
    any row: on
    a new session with at least one incentive and one company the table is
    empty after the run. *)
Theorem outage_persists_nothing (E : Externals) (k : Z) (w : World) :
  llm_always_fails E ->
  w_pending w = [] ->
  w_incentives w <> [] ->
  w_companies w <> [] ->
  w_matches (snd (find_and_store_matches E k w)) = [].
Proof.
  intros Hdown Hp Hi Hc.
  destruct (find_and_store_matches E k w) as [r w'] eqn:H. simpl.
  apply find_and_store_matches_spec in H
    as [([He | He] & _) | (_ & _ & _ & _ & started & rest & rowss & css & Hs & _ & _ & Hr)];
    [contradiction | contradiction |].
  destruct r as [v | e]; [| apply (raised_run_table E w w' Hp), Hr].
  destruct Hr as (_ & _ & Hm & _ & HF & _). rewrite Hm, Hp. simpl.
  clear - HF Hdown. induction HF as [| inc rows incs rowss Hrows _ IH]; simpl;
    [reflexivity |].
  rewrite IH, app_nil_r.
  destruct Hrows
    as (n & [-> | (details & scores & answer & top & _ & _ & Ha & Ht & Hr)]);
    [reflexivity |].
  apply adapter_answer_cases in Ha as [-> | (o & c & text & Hg & Hl)].
  - rewrite zero_scores_leave_nothing in Ht. injection Ht as <-.
    simpl in Hr. injection Hr as <-. reflexivity.
  - specialize (Hdown n o c (map summary_of (top_n_of scores))).
    rewrite Hg, Hl in Hdown. discriminate.
Qed.

(** The example with the language model down. *)
Lemma outage_persists_nothing_witness :
  w_matches (snd (find_and_store_matches E_down 5 world_x)) = [].
Proof.
  apply (outage_persists_nothing E_down 5 world_x).
  - intros n o c b. exact I.
  - reflexivity.
  - simpl. discriminate.
  - simpl. discriminate.
Defined.

(** X8.  Criteria that parse to a JSON value other than an object (a list,
    a string, a number, [null]) are not skipped: with at least one company,
    the run raises [AttributeError] on the first such incentive it meets at
    the head of the list, after the table was cleared and before any
    request.  (A session that comes with rows that the database refuses
    stops earlier, at the commit of line 75, with the exception of the
    database; the table is then as it was.) *)
Theorem non_object_criteria_stop_the_run
    (E : Externals) (k : Z) (w : World) (incentive : Incentive)
    (rest : list Incentive) (v : json) :
  w_incentives w = incentive :: rest ->
  w_companies w <> [] ->
  loads_column E (ai_description incentive) = Ok v ->
  match v with JDict _ => False | _ => True end ->
  match refusal E (w_pending w) with
  | None =>
      fst (find_and_store_matches E k w) = Raise AttributeError
      /\ w_matches (snd (find_and_store_matches E k w)) = w_pending w
      /\ w_calls (snd (find_and_store_matches E k w)) = w_calls w
  | Some e =>
      fst (find_and_store_matches E k w) = Raise e
      /\ w_matches (snd (find_and_store_matches E k w)) = w_matches w
      /\ w_calls (snd (find_and_store_matches E k w)) = w_calls w
  end.
Proof.
  intros Hi Hc Hv Hnd.
  rewrite find_and_store_matches_clears by (trivial; congruence).
  destruct (refusal E (w_pending w)); [simpl; auto |].
  unfold matching_tail. rewrite Hi. cbn [for_each].
  destruct (w_companies w) as [| c cs]; [congruence |].
  unfold bind at 1 2. unfold match_incentive. unfold bind at 1.
  cbn [print fst snd]. rewrite Hv. unfold bind at 1. unfold lift, rule_scores.
  cbn [map_r]. rewrite (calculate_match_score_not_dict E v c Hnd).
  cbn [rbind]. unfold cleared. simpl. auto.
Qed.

(** An incentive whose criteria are the JSON list [[]]. *)
Lemma non_object_criteria_stop_the_run_witness :
  fst (find_and_store_matches E_good 5
         (with_incentives world_x [mkIncentive 3 "Lista" (Some "[]")]))
  = Raise AttributeError
  /\ w_matches (snd (find_and_store_matches E_good 5
         (with_incentives world_x [mkIncentive 3 "Lista" (Some "[]")])))
     = w_pending (with_incentives world_x [mkIncentive 3 "Lista" (Some "[]")])
  /\ w_calls (snd (find_and_store_matches E_good 5
         (with_incentives world_x [mkIncentive 3 "Lista" (Some "[]")])))
     = w_calls (with_incentives world_x [mkIncentive 3 "Lista" (Some "[]")]).
Proof.
  apply (non_object_criteria_stop_the_run E_good 5
           (with_incentives world_x [mkIncentive 3 "Lista" (Some "[]")])
           (mkIncentive 3 "Lista" (Some "[]")) [] (JList [])).
  - reflexivity.
  - simpl. discriminate.
  - reflexivity.
  - exact I.
Defined.

Lemma slice_to_length {A : Type} (k : Z) (l : list A) :
  List.length (slice_to k l) = slice_length k (List.length l).
Proof.
  unfold slice_to, slice_length. destruct (0 <=? k); rewrite length_firstn; lia.
Qed.

(** X9.  Lines 103-104 keep [k] of the items with a positive score, or all
    of them when they are fewer; a negative [k] is not refused: it drops
    the [-k] items of lowest score and keeps the others. *)
Theorem top_k_keeps_a_slice
    (E : Externals) (k : Z) (answer : json) (items top : list json) :
  py_iter answer = Ok items ->
  top_k_of E k answer = Ok top ->
  List.length top
  = slice_length k (List.length (filter (positive_item E) items)).
Proof.
  intros Hit. unfold top_k_of, sorted_desc_r. rewrite Hit. cbn [rbind].
  destruct (filter_r _ items) as [kept |] eqn:Hf; cbn [rbind]; [| discriminate].
  destruct (map_r (item_score E) kept) as [keys |] eqn:Hk; cbn [rbind];
    [| discriminate].
  intros H. injection H as <-.
  apply filter_r_filter in Hf.
  assert (Hkept : kept = filter (positive_item E) items).
  { rewrite Hf. apply filter_ext. intros item. unfold positive_item.
    destruct (item_score E item); reflexivity. }
  apply map_r_Forall2 in Hk. apply Forall2_length_eq in Hk.
  rewrite slice_to_length, length_map, sorted_desc_length, length_combine.
  rewrite <- Hk, Nat.min_id, Hkept. reflexivity.
Qed.

(** Two positive items and [k = -1]: one row. *)
Lemma top_k_keeps_a_slice_witness :
  List.length [JDict [("nif", JStr "500100200"); ("score", JFloat (Fin (4 # 5)))]]
  = slice_length (-1)
      (List.length
         (filter (positive_item E_good)
            [JDict [("nif", JStr "500100300"); ("score", JFloat (Fin (1 # 2)))];
             JDict [("nif", JStr "500100200"); ("score", JFloat (Fin (4 # 5)))]])).
Proof.
  apply (top_k_keeps_a_slice E_good (-1)
           (JList [JDict [("nif", JStr "500100300"); ("score", JFloat (Fin (1 # 2)))];
                   JDict [("nif", JStr "500100200"); ("score", JFloat (Fin (4 # 5)))]]));
    reflexivity.
Defined.

(** ** Incentives without criteria *)

Lemma keeps_ret {A : Type} (a : A) : keeps_session (ret a).
Proof. intros w1 w2 H. simpl. auto. Qed.

Lemma keeps_lift {A : Type} (r : result A) : keeps_session (lift r).
Proof. intros w1 w2 H. simpl. auto. Qed.

Lemma keeps_print (m : msg) : keeps_session (print m).
Proof. intros w1 w2 H. simpl. split; [reflexivity | exact H]. Qed.

Lemma keeps_db_add (m : Match) : keeps_session (db_add m).
Proof.
  intros w1 w2 (A1 & A2 & A3 & A4). simpl. split; [reflexivity |].
  unfold same_session. simpl. rewrite A2. auto.
Qed.

Lemma keeps_db_commit (E : Externals) : keeps_session (db_commit E).
Proof.
  intros w1 w2 (A1 & A2 & A3 & A4). unfold db_commit. rewrite A2.
  destruct (refusal E (w_pending w2)); simpl; (split; [reflexivity |]);
    unfold same_session; simpl; rewrite ?A1, ?A4; auto.
Qed.

Lemma keeps_bind {A B : Type} (m : M A) (k : A -> M B) :
  keeps_session m -> (forall a, keeps_session (k a)) -> keeps_session (bind m k).
Proof.
  intros Hm Hk w1 w2 H. unfold bind.
  destruct (Hm w1 w2 H) as [Hr Hw].
  destruct (m w1) as [[a | e] w1'], (m w2) as [[a' | e'] w2'];
    simpl in Hr, Hw; try discriminate.
  - injection Hr as <-. apply Hk, Hw.
  - injection Hr as <-. simpl. auto.
Qed.

Lemma keeps_for_each {A S : Type} (body : S -> A -> M S) (l : list A) (acc : S) :
  (forall s x, keeps_session (body s x)) -> keeps_session (for_each body l acc).
Proof.
  intros Hb. revert acc. induction l as [| x rest IH]; intros acc; simpl.
  - apply keeps_ret.
  - apply keeps_bind; auto.
Qed.

Section Skipping.

Context (E : Externals).

Lemma keeps_adapter (incentive : Incentive) (batch : list Company) :
  keeps_session (score_companies_for_incentive E incentive batch).
Proof.
  intros [i1 c1 m1 p1 k1 o1 d1] [i2 c2 m2 p2 k2 o2 d2] (A1 & A2 & A3 & A4).
  simpl in A1, A2, A3, A4. subst m2 p2 k2 d2.
  unfold score_companies_for_incentive, bind, record_call, lift.
  cbn [w_calls w_incentives w_companies w_matches w_pending w_stdout w_deleting].
  destruct (loads_column E (ai_description incentive)) as [sd | e]; cbn [rbind].
  2:{ simpl. unfold same_session. simpl. auto. }
  destruct (py_getitem sd "object") as [o | e].
  2:{ simpl. unfold same_session. simpl. auto. }
  destruct (py_getitem sd "criterios") as [c | e].
  2:{ simpl. unfold same_session. simpl. auto. }
  destruct (generate_content E _ o c _) as [text | e];
    [destruct (json_loads E text) |]; simpl; unfold same_session; simpl; auto.
Qed.

Lemma keeps_store_match (incentive : Incentive) (total : Z) (item : json) :
  keeps_session (store_match E incentive total item).
Proof.
  unfold store_match.
  apply keeps_bind; [apply keeps_lift | intros nif].
  apply keeps_bind; [apply keeps_lift | intros s].
  apply keeps_bind; [apply keeps_db_add | intros _].
  apply keeps_bind; [apply keeps_print | intros _].
  apply keeps_ret.
Qed.

Lemma keeps_match_incentive (companies : list Company) (k total : Z)
    (incentive : Incentive) :
  keeps_session (match_incentive E companies k total incentive).
Proof.
  unfold match_incentive.
  apply keeps_bind; [apply keeps_print | intros _].
  destruct (loads_column E (ai_description incentive)) as [details | e].
  2:{ destruct (caught_on_loads e); [| apply keeps_lift].
      apply keeps_bind; [apply keeps_print | intros _; apply keeps_ret]. }
  apply keeps_bind; [apply keeps_lift | intros scores].
  destruct (is_nil (top_n_of scores)).
  { apply keeps_bind; [apply keeps_print | intros _; apply keeps_ret]. }
  apply keeps_bind; [apply keeps_print | intros _].
  apply keeps_bind; [apply keeps_adapter | intros answer].
  destruct (truthy answer).
  - apply keeps_bind; [apply keeps_lift | intros top].
    apply keeps_for_each. intros s x. apply keeps_store_match.
  - apply keeps_bind; [apply keeps_print | intros _; apply keeps_ret].
Qed.

(** Lines 86-88: only two lines of output. *)
Lemma match_incentive_skips (companies : list Company) (k total : Z)
    (incentive : Incentive) (w : World) :
  skipped E incentive = true ->
  fst (match_incentive E companies k total incentive w) = Ok total
  /\ same_session w (snd (match_incentive E companies k total incentive w)).
Proof.
  unfold skipped, match_incentive.
  destruct (loads_column E (ai_description incentive)) as [| e]; [discriminate |].
  intros ->. simpl. unfold same_session. simpl. auto.
Qed.

Lemma loop_skips (companies : list Company) (k : Z) (incentives : list Incentive) :
  forall (total : Z) (w1 w2 : World),
    same_session w1 w2 ->
    fst (for_each (match_incentive E companies k) incentives total w1)
    = fst (for_each (match_incentive E companies k)
                    (not_skipped E incentives) total w2)
    /\ same_session
         (snd (for_each (match_incentive E companies k) incentives total w1))
         (snd (for_each (match_incentive E companies k)
                        (not_skipped E incentives) total w2)).
Proof.
  induction incentives as [| inc incs IH]; intros total w1 w2 Hw.
  - simpl. auto.
  - unfold not_skipped. cbn [filter for_each]. fold (not_skipped E incs).
    destruct (skipped E inc) eqn:Hp; cbn [negb].
    + unfold bind.
      destruct (match_incentive_skips companies k total inc w1 Hp) as [Hr Hs].
      destruct (match_incentive E companies k total inc w1) as [[a | e] w1'];
        simpl in Hr, Hs; [| discriminate].
      injection Hr as ->. apply IH.
      destruct Hs as (B1 & B2 & B3 & B4), Hw as (A1 & A2 & A3 & A4).
      unfold same_session. rewrite <- B1, <- B2, <- B3, <- B4. auto.
    + cbn [for_each]. unfold bind.
      destruct (keeps_match_incentive companies k total inc w1 w2 Hw) as [Hr Hs].
      destruct (match_incentive E companies k total inc w1) as [[a | e] w1'],
               (match_incentive E companies k total inc w2) as [[a' | e'] w2'];
        simpl in Hr, Hs; try discriminate.
      * injection Hr as <-. apply IH, Hs.
      * injection Hr as <-. simpl. auto.
Qed.

Lemma bind_related {A B : Type} (m1 m2 : M A) (k : A -> M B) (w1 w2 : World) :
  fst (m1 w1) = fst (m2 w2) ->
  same_session (snd (m1 w1)) (snd (m2 w2)) ->
  (forall a, keeps_session (k a)) ->
  fst (bind m1 k w1) = fst (bind m2 k w2)
  /\ same_session (snd (bind m1 k w1)) (snd (bind m2 k w2)).
Proof.
  unfold bind. intros Hr Hs Hk.
  destruct (m1 w1) as [[a | e] w1'], (m2 w2) as [[a' | e'] w2'];
    simpl in Hr, Hs; try discriminate.
  - injection Hr as <-. apply Hk, Hs.
  - injection Hr as <-. simpl. auto.
Qed.

Lemma tail_skips (companies : list Company) (k : Z) (incentives : list Incentive)
    (w1 w2 : World) :
  same_session w1 w2 ->
  fst (matching_tail E k companies incentives w1)
  = fst (matching_tail E k companies (not_skipped E incentives) w2)
  /\ same_session
       (snd (matching_tail E k companies incentives w1))
       (snd (matching_tail E k companies (not_skipped E incentives) w2)).
Proof.
  intros Hw. unfold matching_tail.
  destruct (loop_skips companies k incentives 0 w1 w2 Hw) as [Hr Hs].
  apply bind_related; [exact Hr | exact Hs |].
  intros total.
  apply keeps_bind; [apply keeps_db_commit | intros _].
  apply keeps_bind; [apply keeps_print | intros _; apply keeps_ret].
Qed.

End Skipping.



(** X11.  When every incentive is skipped (its criteria are missing or are
    no JSON), a run with at least one incentive and one company still
    clears the table: it returns, asks nothing of the semantic adapter, and
    leaves the table without the rows it held.  (A session that comes with
    rows that the database refuses stops at the commit of line 75, with
    the exception of the database; the table is then as it was.) *)
Theorem run_without_criteria_only_clears (E : Externals) (k : Z) (w : World) :
  w_incentives w <> [] ->
  w_companies w <> [] ->
  not_skipped E (w_incentives w) = [] ->
  match refusal E (w_pending w) with
  | None =>
      fst (find_and_store_matches E k w) = Ok JNull
      /\ w_matches (snd (find_and_store_matches E k w)) = w_pending w
      /\ w_calls (snd (find_and_store_matches E k w)) = w_calls w
  | Some e =>
      fst (find_and_store_matches E k w) = Raise e
      /\ w_matches (snd (find_and_store_matches E k w)) = w_matches w
      /\ w_calls (snd (find_and_store_matches E k w)) = w_calls w
  end.
Proof.
  intros Hi Hc Hnone.
  rewrite (find_and_store_matches_clears E k w Hi Hc).
  destruct (refusal E (w_pending w)); [simpl; auto |].
  destruct (tail_skips E (w_companies w) k (w_incentives w)
              (cleared k w) (cleared k w)) as [Hr (B1 & B2 & B3 & B4)].
  { unfold same_session. auto. }
  rewrite Hnone in Hr, B1, B3. rewrite Hr, B1, B3.
  unfold matching_tail, cleared. simpl. rewrite app_nil_r. auto.
Qed.

(** One incentive whose criteria column is empty. *)
Lemma run_without_criteria_only_clears_witness :
  let w := with_incentives world_x [mkIncentive 4 "Sem texto" None] in
  fst (find_and_store_matches E_good 5 w) = Ok JNull
  /\ w_matches (snd (find_and_store_matches E_good 5 w)) = w_pending w
  /\ w_calls (snd (find_and_store_matches E_good 5 w)) = w_calls w.
Proof.
  apply (run_without_criteria_only_clears E_good 5
           (with_incentives world_x [mkIncentive 4 "Sem texto" None])).
  - simpl. discriminate.
  - simpl. discriminate.
  - reflexivity.
Defined.

(** * Properties of the other services and of the chatbot *)

(** X12.  When the extraction of an incentive fails (the language model
    raises, or [json.loads] raises on its answer), the record returned in
    its place matches every company on industry alone.  A company with an
    employee count scores 0.8 when the lower-cased name of its city is not
    "unknown" and occurs in the word "error", and 0.5 otherwise, never the
    size weight; either score passes the threshold of the rule stage.  The
    one exception is the company on whose secondary codes [json.loads]
    raises what line 26 does not catch: the scorer raises it.  The record
    carries the two keys the semantic adapter reads. *)
Theorem failed_extraction_matches_on_industry
    (E : Externals) (S : Services) (original_text : string)
    (company : Company) (n : Z) :
  str_lower E "Error" = "error" ->
  extraction_fails E S original_text ->
  latest_number_of_employees company = Some n ->
  let criteria := generate_structured_data_for_incentive E S original_text in
  match company_caes E company with
  | Ok _ =>
      exists v,
        calculate_match_score E criteria company = Ok v
        /\ v = (if negb (String.eqb (city_read E company) "unknown")
                   && contains (city_read E company) "error"
                then Fin (4 # 5) else Fin (1 # 2))
        /\ fgt v MIN_RULE_SCORE = true
  | Raise e =>
      codes_raise E company e
      /\ calculate_match_score E criteria company = Raise e
  end
  /\ is_ok (py_getitem criteria "object") = true
  /\ is_ok (py_getitem criteria "criterios") = true.
Proof.
  intros Hlow Hfail Hn criteria.
  assert (Hc : criteria = extraction_fallback).
  { subst criteria. unfold generate_structured_data_for_incentive.
    unfold extraction_fails in Hfail.
    destruct (extract_content S original_text) as [text |]; [| reflexivity].
    destruct (json_loads E text); [discriminate | reflexivity]. }
  rewrite Hc. split; [| split; reflexivity].
  unfold calculate_match_score, raw_score, incentive_caes, extraction_fallback.
  cbn [py_get assoc_get String.eqb Ascii.eqb Bool.eqb py_set forallb rbind].
  destruct (company_caes E company) as [caes | e] eqn:Hcomp; cbn [rbind].
  2:{ split; [apply company_caes_raises_iff, Hcomp | reflexivity]. }
  rewrite Hn. cbn [rbind]. unfold location_points, city_read. rewrite Hlow.
  cbn [contains String.prefix orb String.eqb Ascii.eqb Bool.eqb].
  match goal with
  | |- context [if ?c then weight_location else 0] => destruct c
  end.
  - eexists. split; [reflexivity |]. split; reflexivity.
  - eexists. split; [reflexivity |]. split; reflexivity.
Qed.

(** The extraction service of the examples is down; the city of company B
    does not occur in "error". *)
Lemma failed_extraction_matches_on_industry_witness :
  let criteria :=
    generate_structured_data_for_incentive
      E_down (services_with (Ok "SELECT 1") (Ok [])) "Aviso" in
  (exists v,
      calculate_match_score E_down criteria company_b = Ok v
      /\ v = Fin (1 # 2)
      /\ fgt v MIN_RULE_SCORE = true)
  /\ is_ok (py_getitem criteria "object") = true
  /\ is_ok (py_getitem criteria "criterios") = true.
Proof.
  apply (failed_extraction_matches_on_industry
           E_down (services_with (Ok "SELECT 1") (Ok [])) "Aviso" company_b 10).
  - reflexivity.
  - exact I.
  - reflexivity.
Defined.

Lemma space_width_backtick (r : string) : space_width (String "`"%char r) = O.
Proof. destruct r as [| b [| c r']]; reflexivity. Qed.

(** X13.  An answer of the language model that starts, once stripped, with
    a backtick is refused with the "only SELECT" query: the branch that
    removes a leading code fence is never taken, and a fenced query is not
    unwrapped. *)
Theorem fenced_sql_is_refused
    (S : Services) (query db_schema text rest : string) :
  upper_keeps_backtick S ->
  sql_content S query db_schema = Ok text ->
  py_strip text = String "`"%char rest ->
  generate_sql_from_natural_language S query db_schema = ONLY_SELECT.
Proof.
  intros Hup Hans Hstrip. unfold generate_sql_from_natural_language.
  rewrite Hans. cbv zeta. rewrite Hstrip.
  assert (Hl : py_lstrip (String "`"%char rest) = String "`"%char rest).
  { unfold py_lstrip. cbn [String.length lstrip_fuel].
    rewrite space_width_backtick. reflexivity. }
  rewrite Hl. destruct (Hup rest) as [r' ->]. reflexivity.
Qed.

(** A fenced query. *)
Lemma fenced_sql_is_refused_witness :
  generate_sql_from_natural_language
    (services_with (Ok "```sql SELECT 1;```") (Ok [])) "quantas empresas?" "t"
  = ONLY_SELECT.
Proof.
  apply (fenced_sql_is_refused
           (services_with (Ok "```sql SELECT 1;```") (Ok []))
           "quantas empresas?" "t" "```sql SELECT 1;```" "``sql SELECT 1;```").
  - intros r. exists (upper_text r). reflexivity.
  - reflexivity.
  - reflexivity.
Defined.

(** X14.  When the language model raises, or answers something that does
    not start with SELECT, the endpoint replies 400 with one of the two
    refusal queries of the adapter and runs no SQL. *)
Theorem refusals_run_no_sql (E : Externals) (S : Services) (query : string) :
  lower_keeps_error E ->
  get_db_schema S <> EmptyString ->
  match sql_content S query (get_db_schema S) with
  | Ok text =>
      String.prefix "SELECT" (str_upper S (py_lstrip (py_strip text))) = false
  | Raise _ => True
  end ->
  exists sql,
    (sql = ONLY_SELECT \/ sql = SQL_FAILED)
    /\ fst (chat_with_data E S query) = Refused400 sql
    /\ snd (chat_with_data E S query) = [AskedModel query (get_db_schema S)].
Proof.
  intros Hlow Hschema Hans. unfold chat_with_data.
  destruct (String.eqb_spec (get_db_schema S) EmptyString) as [He | _];
    [contradiction |].
  assert (Hsql : generate_sql_from_natural_language S query (get_db_schema S)
                 = ONLY_SELECT
                 \/ generate_sql_from_natural_language S query (get_db_schema S)
                    = SQL_FAILED).
  { unfold generate_sql_from_natural_language.
    destruct (sql_content S query (get_db_schema S)) as [text |]; [| auto].
    cbv zeta. rewrite Hans. auto. }
  assert (Herr : contains "error"
                   (str_lower E
                      (generate_sql_from_natural_language S query (get_db_schema S)))
                 = true).
  { apply Hlow. destruct Hsql as [-> | ->]; reflexivity. }
  cbv zeta. rewrite Herr. cbn [orb fst snd].
  exists (generate_sql_from_natural_language S query (get_db_schema S)). auto.
Qed.

(** A prefix in lower-case ASCII letters stays a prefix. *)
Lemma lower_text_prefix (p s : string) :
  (forall c, In c (list_ascii_of_string p) ->
             Nat.leb 97 (nat_of_ascii c) && Nat.leb (nat_of_ascii c) 122 = true) ->
  String.prefix p s = true ->
  String.prefix p (lower_text s) = true.
Proof.
  revert s. induction p as [| a p IH]; intros s Hp H.
  - destruct (lower_text s); reflexivity.
  - destruct s as [| c t]; [discriminate |].
    cbn [String.prefix] in H.
    destruct (ascii_dec a c) as [<- |]; [| discriminate].
    assert (Ha : Nat.leb 97 (nat_of_ascii a) && Nat.leb (nat_of_ascii a) 122 = true).
    { apply Hp. left. reflexivity. }
    apply andb_true_iff in Ha as [Ha1 Ha2].
    apply Nat.leb_le in Ha1, Ha2.
    cbn [lower_text].
    destruct (Nat.eqb_spec (nat_of_ascii a) 195) as [Heq |]; [lia |].
    assert (Hl : lower_ascii a = a).
    { unfold lower_ascii.
      destruct (Nat.leb_spec (nat_of_ascii a) 90); [lia |].
      rewrite andb_false_r. reflexivity. }
    rewrite Hl. cbn [String.prefix].
    destruct (ascii_dec a a) as [_ |]; [| congruence].
    apply IH; [| exact H]. intros c Hc. apply Hp. right. exact Hc.
Qed.

Lemma lower_text_keeps_error_bounded (n : nat) :
  forall s, (String.length s <= n)%nat ->
            contains "error" s = true -> contains "error" (lower_text s) = true.
Proof.
  assert (Hletters : forall c, In c (list_ascii_of_string "error") ->
            Nat.leb 97 (nat_of_ascii c) && Nat.leb (nat_of_ascii c) 122 = true).
  { simpl. intros c [<- | [<- | [<- | [<- | [<- | []]]]]]; reflexivity. }
  induction n as [| n IH]; intros s Hlen H.
  - destruct s; [discriminate | simpl in Hlen; lia].
  - destruct s as [| c t]; [discriminate |].
    simpl in Hlen.
    destruct (String.prefix "error" (String c t)) eqn:Hp.
    { apply (lower_text_prefix _ _ Hletters) in Hp.
      destruct (lower_text (String c t)); [discriminate |].
      cbn [contains]. rewrite Hp. reflexivity. }
    assert (Ht : contains "error" t = true).
    { cbn [contains] in H. rewrite Hp in H. exact H. }
    clear H Hp. cbn [lower_text].
    destruct (Nat.eqb (nat_of_ascii c) 195).
    + destruct t as [| d t']; [discriminate |].
      simpl in Hlen.
      assert (Hgoal : forall d', contains "error" (String d' (lower_text t')) = true
                                 -> contains "error"
                                      (String c (String d' (lower_text t'))) = true).
      { intros d' Hd. cbn [contains]. cbn [contains] in Hd.
        destruct (String.prefix "error" (String c (String d' (lower_text t'))));
          [reflexivity | exact Hd]. }
      destruct (String.prefix "error" (String d t')) eqn:Hp.
      * cbn [String.prefix] in Hp.
        destruct (ascii_dec "e"%char d) as [<- |]; [| discriminate].
        apply (lower_text_prefix "rror" t') in Hp.
        2:{ intros a Ha. apply Hletters. right. exact Ha. }
        change (Nat.leb 128 (nat_of_ascii "e"%char)
                && Nat.leb (nat_of_ascii "e"%char) 158
                && negb (Nat.eqb (nat_of_ascii "e"%char) 151)) with false.
        apply Hgoal. cbn [contains String.prefix].
        destruct (ascii_dec "e"%char "e"%char) as [_ |]; [| congruence].
        rewrite Hp. reflexivity.
      * assert (Ht' : contains "error" t' = true).
        { cbn [contains] in Ht. rewrite Hp in Ht. exact Ht. }
        assert (IHt : contains "error" (lower_text t') = true).
        { apply IH; [lia | exact Ht']. }
        destruct (Nat.leb 128 (nat_of_ascii d) && Nat.leb (nat_of_ascii d) 158
                  && negb (Nat.eqb (nat_of_ascii d) 151));
          apply Hgoal; cbn [contains]; rewrite IHt;
          match goal with
          | |- (if ?b then true else true) = true => destruct b; reflexivity
          end.
    + cbn [contains]. rewrite (IH t) by (trivial; lia).
      destruct (String.prefix _ _); reflexivity.
Qed.

(** The lower case of the examples keeps the word. *)
Lemma lower_text_keeps_error : lower_keeps_error E_down.
Proof.
  intros s. apply (lower_text_keeps_error_bounded (String.length s)). lia.
Qed.

(** The language model of the examples raises. *)
Lemma refusals_run_no_sql_witness :
  exists sql,
    (sql = ONLY_SELECT \/ sql = SQL_FAILED)
    /\ fst (chat_with_data E_down
              (services_with (Raise (RuntimeError "unavailable"))
                             (Ok [Some "CREATE TABLE t (a)"]))
              "quantas empresas?")
       = Refused400 sql
    /\ snd (chat_with_data E_down
              (services_with (Raise (RuntimeError "unavailable"))
                             (Ok [Some "CREATE TABLE t (a)"]))
              "quantas empresas?")
       = [AskedModel "quantas empresas?"
            (get_db_schema
               (services_with (Raise (RuntimeError "unavailable"))
                              (Ok [Some "CREATE TABLE t (a)"])))].
Proof.
  apply (refusals_run_no_sql E_down
           (services_with (Raise (RuntimeError "unavailable"))
                          (Ok [Some "CREATE TABLE t (a)"]))
           "quantas empresas?").
  - exact lower_text_keeps_error.
  - vm_compute. discriminate.
  - exact I.
Defined.

Lemma concat_nonempty (sep : string) (l : list string) :
  Forall (fun x => x <> EmptyString) l ->
  String.concat sep l = EmptyString -> l = [].
Proof.
  intros Hall H. destruct l as [| x [| y l']]; [reflexivity | |];
    inversion Hall as [| ? ? Hx _]; subst; exfalso; apply Hx.
  - exact H.
  - cbn [String.concat] in H. destruct x; [reflexivity | discriminate].
Qed.

Lemma get_db_schema_empty_iff (S : Services) :
  get_db_schema S = EmptyString
  <-> match schema_rows S with
      | Ok tables => Forall (fun t => t = None \/ t = Some EmptyString) tables
      | Raise _ => True
      end.
Proof.
  unfold get_db_schema. destruct (schema_rows S) as [tables | e]; [| tauto].
  set (f := fun table : option string =>
              match table with
              | Some sql => if String.eqb sql EmptyString then [] else [sql]
              | None => []
              end).
  assert (Hne : Forall (fun x => x <> EmptyString) (flat_map f tables)).
  { induction tables as [| [sql |] tables IH]; simpl; auto.
    destruct (String.eqb_spec sql EmptyString); simpl; auto. }
  split.
  - intros H. apply concat_nonempty in H; [| exact Hne]. clear Hne.
    induction tables as [| [sql |] tables IH]; simpl in *; constructor; auto.
    + destruct (String.eqb_spec sql EmptyString); [subst; auto | discriminate].
    + destruct (String.eqb_spec sql EmptyString); [auto | discriminate].
  - intros H. clear Hne.
    assert (Hnil : flat_map f tables = []).
    { induction H as [| t tables [-> | ->] _ IH]; simpl; auto. }
    rewrite Hnil. reflexivity.
Qed.

(** X15.  The endpoint replies 500 "schema unavailable", without asking the
    language model and without running SQL, exactly when the schema cannot
    be read or the database has no table with a definition. *)
Theorem schema_unavailable_iff (E : Externals) (S : Services) (query : string) :
  chat_with_data E S query = (SchemaUnavailable500, [])
  <-> match schema_rows S with
      | Ok tables => Forall (fun t => t = None \/ t = Some EmptyString) tables
      | Raise _ => True
      end.
Proof.
  rewrite <- get_db_schema_empty_iff. unfold chat_with_data.
  destruct (String.eqb_spec (get_db_schema S) EmptyString) as [He | Hne].
  - tauto.
  - split; [| contradiction]. cbv zeta.
    destruct (_ || _); [discriminate |].
    destruct (read_sql S _) as [df |]; [destruct (df_empty df) |]; discriminate.
Qed.

(** * Which exceptions reach the caller *)

(** The scorer raises nothing but [AttributeError], [TypeError] and what
    line 25 raises on the secondary codes. *)
Lemma scorer_fails_core (E : Externals) (details : json) (company : Company) :
  match calculate_match_score E details company with
  | Ok _ => True
  | Raise e => e = AttributeError \/ e = TypeError \/ codes_raise E company e
  end.
Proof.
  destruct details as [| b | z | f | s | l | d];
    try (rewrite calculate_match_score_not_dict by exact I; auto).
  destruct (latest_number_of_employees company) as [n |] eqn:Hn.
  - destruct (raw_score_cases E d company n Hn)
      as [[Hu Hr] | [[_ (e & He & Hr)] | [_ (_ & z & _ & Hr)]]];
      unfold calculate_match_score; rewrite Hr; cbn [rbind]; auto.
  - destruct (calculate_match_score_no_employee_count E d company Hn)
      as (e & -> & [-> | He]); auto.
Qed.

(** X16.  The scorer fails in four ways only, met in this order:
    [AttributeError] when the criteria are not an object; [TypeError] when
    the list of codes of the incentive holds an unhashable element; the
    exception that [json.loads] raises on the secondary codes of the
    company, when it is not one of the two that line 26 catches;
    [TypeError] when the company has no employee count.  On every other
    input it returns. *)
Theorem scorer_fails_in_four_ways
    (E : Externals) (details : json) (company : Company) :
  match calculate_match_score E details company with
  | Ok _ =>
      (exists d, details = JDict d /\ ~ unhashable_caes d)
      /\ is_ok (company_caes E company) = true
      /\ latest_number_of_employees company <> None
  | Raise e =>
      (e = AttributeError /\ forall d, details <> JDict d)
      \/ exists d,
           details = JDict d
           /\ ((e = TypeError /\ unhashable_caes d)
               \/ (~ unhashable_caes d /\ codes_raise E company e)
               \/ (e = TypeError
                   /\ ~ unhashable_caes d
                   /\ is_ok (company_caes E company) = true
                   /\ latest_number_of_employees company = None))
  end.
Proof.
  destruct details as [| b | z | f | s | l | d];
    try (rewrite calculate_match_score_not_dict by exact I;
         left; split; [reflexivity | intros d; discriminate]).
  unfold calculate_match_score, raw_score.
  destruct (incentive_caes_cases d) as [[Hu ->] | [Hu (inc_caes & ->)]];
    cbn [rbind].
  { right. exists d. split; [reflexivity |]. left. auto. }
  destruct (company_caes_cases E company) as [(caes & Hc) | (e & He & Hc)];
    rewrite Hc; cbn [py_get rbind].
  - destruct (latest_number_of_employees company) as [n |] eqn:Hn; cbn [rbind].
    + split; [exists d; auto |]. split; [reflexivity | discriminate].
    + right. exists d. split; [reflexivity |]. right. right. auto.
  - right. exists d. split; [reflexivity |]. right. left. auto.
Qed.

Lemma fails_only_bind {A B : Type} (P : exn -> Prop) (r : result A)
    (k : A -> result B) :
  fails_only P r -> (forall a, fails_only P (k a)) -> fails_only P (rbind r k).
Proof.
  intros Hr Hk e. destruct r as [a | e']; simpl.
  - apply Hk.
  - intros H. injection H as <-. apply Hr. reflexivity.
Qed.

Lemma fails_only_ok {A : Type} (P : exn -> Prop) (a : A) : fails_only P (Ok a).
Proof. intros e H. discriminate. Qed.

Lemma fails_only_weaken {A : Type} (P Q : exn -> Prop) (r : result A) :
  (forall e, P e -> Q e) -> fails_only P r -> fails_only Q r.
Proof. intros HPQ Hr e H. apply HPQ, Hr, H. Qed.

Lemma fails_only_map_r {A B : Type} (P : exn -> Prop) (f : A -> result B)
    (l : list A) :
  (forall x, fails_only P (f x)) -> fails_only P (map_r f l).
Proof.
  intros Hf. induction l as [| x rest IH]; simpl; [apply fails_only_ok |].
  apply fails_only_bind; [apply Hf | intros y].
  apply fails_only_bind; [exact IH | intros ys; apply fails_only_ok].
Qed.

Lemma fails_only_filter_r {A : Type} (P : exn -> Prop) (p : A -> result bool)
    (l : list A) :
  (forall x, fails_only P (p x)) -> fails_only P (filter_r p l).
Proof.
  intros Hp. induction l as [| x rest IH]; simpl; [apply fails_only_ok |].
  apply fails_only_bind; [apply Hp | intros y].
  apply fails_only_bind; [exact IH | intros ys; apply fails_only_ok].
Qed.

Lemma raises_only_ret {A : Type} (P : exn -> Prop) (a : A) : raises_only P (ret a).
Proof. intros w e w' H. discriminate. Qed.

Lemma raises_only_print (P : exn -> Prop) (m : msg) : raises_only P (print m).
Proof. intros w e w' H. discriminate. Qed.

Lemma raises_only_lift {A : Type} (P : exn -> Prop) (r : result A) :
  fails_only P r -> raises_only P (lift r).
Proof. intros Hr w e w' H. injection H as H _. apply Hr, H. Qed.

Lemma raises_only_weaken {A : Type} (P Q : exn -> Prop) (m : M A) :
  (forall e, P e -> Q e) -> raises_only P m -> raises_only Q m.
Proof. intros HPQ Hm w e w' H. eapply HPQ, Hm, H. Qed.

Lemma raises_only_bind {A B : Type} (P : exn -> Prop) (m : M A) (k : A -> M B) :
  raises_only P m -> (forall a, raises_only P (k a)) -> raises_only P (bind m k).
Proof.
  intros Hm Hk w e w' H.
  apply bind_inv in H as [(a & w1 & _ & H) | (e' & H & Heq)].
  - eapply Hk, H.
  - injection Heq as ->. eapply Hm, H.
Qed.

Lemma raises_only_for_each {A S : Type} (P : exn -> Prop) (body : S -> A -> M S)
    (l : list A) (acc : S) :
  (forall s x, In x l -> raises_only P (body s x)) ->
  raises_only P (for_each body l acc).
Proof.
  revert acc. induction l as [| x rest IH]; intros acc Hb; simpl.
  - apply raises_only_ret.
  - apply raises_only_bind; [apply Hb; left; reflexivity |].
    intros s. apply IH. intros s' y Hy. apply Hb. right. exact Hy.
Qed.

Section RunErrors.

Context (E : Externals) (incentives : list Incentive) (companies : list Company).

Lemma py_getitem_data_error (obj : json) (key : string) :
  fails_only data_error (py_getitem obj key).
Proof.
  intros e. unfold py_getitem, data_error.
  destruct obj; try (intros H; injection H as <-; auto).
  destruct (assoc_get d key); intros H; [discriminate |].
  injection H as <-. auto.
Qed.

Lemma item_score_data_error (item : json) :
  fails_only data_error (item_score E item).
Proof.
  unfold item_score. apply fails_only_bind; [apply py_getitem_data_error |].
  intros v e. unfold py_float, float_of_int, data_error.
  destruct v; try (intros H; injection H as <-; auto 6); try discriminate.
  - destruct (Z.abs z <? 2 ^ 53); [discriminate |].
    destruct (2 ^ 1024 - 2 ^ 970 <=? Z.abs z); [| discriminate].
    intros H; injection H as <-. auto 6.
  - destruct (float_of_str E s); [discriminate |].
    intros H; injection H as <-. auto 6.
Qed.

Lemma data_error_run_error (e : exn) :
  data_error e -> run_error E incentives companies e.
Proof. unfold run_error. auto. Qed.

Lemma rule_scores_run_error (details : json) :
  fails_only (run_error E incentives companies) (rule_scores E details companies).
Proof.
  intros e H. apply rule_scores_raises in H as (company & Hin & H).
  pose proof (scorer_fails_core E details company) as Hc.
  rewrite H in Hc. unfold run_error, data_error.
  destruct Hc as [-> | [-> | Hc]]; auto. right. right. left. eauto.
Qed.

Lemma top_k_of_data_error (k : Z) (answer : json) :
  fails_only data_error (top_k_of E k answer).
Proof.
  unfold top_k_of.
  apply fails_only_bind.
  { intros e. unfold py_iter, data_error.
    destruct answer; try discriminate; intros H; injection H as <-; auto. }
  intros items. apply fails_only_bind.
  { apply fails_only_filter_r. intros item.
    apply fails_only_bind; [apply item_score_data_error |].
    intros s. apply fails_only_ok. }
  intros kept. apply fails_only_bind; [| intros r; apply fails_only_ok].
  unfold sorted_desc_r.
  apply fails_only_bind; [| intros keys; apply fails_only_ok].
  apply fails_only_map_r, item_score_data_error.
Qed.

(** Past its first line, the adapter raises only on a missing key: what the
    language model raises, and what [json.loads] raises on its answer,
    stay inside. *)
Lemma adapter_data_error (incentive : Incentive) (batch : list Company) :
  is_ok (loads_column E (ai_description incentive)) = true ->
  raises_only data_error (score_companies_for_incentive E incentive batch).
Proof.
  intros Hok w e w' H.
  apply score_companies_for_incentive_spec in H as [H _].
  revert H. unfold adapter_answer.
  destruct (loads_column E (ai_description incentive)) as [sd |];
    [| discriminate].
  cbn [rbind].
  destruct (py_getitem sd "object") as [o | e1] eqn:Ho; cbn [rbind].
  2:{ intros H. injection H as ->. eapply py_getitem_data_error, Ho. }
  destruct (py_getitem sd "criterios") as [c | e1] eqn:Hc; cbn [rbind].
  2:{ intros H. injection H as ->. eapply py_getitem_data_error, Hc. }
  destruct (generate_content E _ o c _) as [text |];
    [destruct (json_loads E text) |]; discriminate.
Qed.

Lemma match_incentive_run_error (k total : Z) (incentive : Incentive) :
  In incentive incentives ->
  raises_only (run_error E incentives companies)
              (match_incentive E companies k total incentive).
Proof.
  intros Hin. unfold match_incentive.
  apply raises_only_bind; [apply raises_only_print | intros _].
  destruct (loads_column E (ai_description incentive)) as [details | e] eqn:Hd.
  2:{ destruct (caught_on_loads e) eqn:Hcaught.
      - apply raises_only_bind; [apply raises_only_print |].
        intros _. apply raises_only_ret.
      - intros w e' w' H. unfold lift in H. injection H as <- _.
        right. left. exists incentive. split; [exact Hin |].
        split; assumption. }
  apply raises_only_bind;
    [apply raises_only_lift, rule_scores_run_error | intros scores].
  destruct (is_nil (top_n_of scores)).
  { apply raises_only_bind; [apply raises_only_print |].
    intros _. apply raises_only_ret. }
  apply raises_only_bind; [apply raises_only_print | intros _].
  apply (raises_only_weaken data_error); [apply data_error_run_error |].
  apply raises_only_bind.
  { apply adapter_data_error. rewrite Hd. reflexivity. }
  intros answer. destruct (truthy answer).
  - apply raises_only_bind;
      [apply raises_only_lift, top_k_of_data_error | intros top].
    apply raises_only_for_each. intros s item _. unfold store_match.
    apply raises_only_bind;
      [apply raises_only_lift, py_getitem_data_error | intros nif].
    apply raises_only_bind;
      [apply raises_only_lift, item_score_data_error | intros sc].
    apply raises_only_bind; [intros w e w' H; discriminate | intros _].
    apply raises_only_bind; [apply raises_only_print | intros _].
    apply raises_only_ret.
  - apply raises_only_bind; [apply raises_only_print |].
    intros _. apply raises_only_ret.
Qed.

Lemma refusal_rows (rows : list Match) (e : exn) :
  refusal E rows = Some e -> flush_error E rows = Some e.
Proof. destruct rows; [discriminate | trivial]. Qed.

Lemma db_commit_run_error :
  raises_only (run_error E incentives companies) (db_commit E).
Proof.
  intros w e w'. unfold db_commit.
  destruct (refusal E (w_pending w)) as [e' |] eqn:Hf; [| discriminate].
  intros H. injection H as <- _.
  apply refusal_rows in Hf.
  right. right. right. eauto.
Qed.

End RunErrors.

(** X17.  No failure of the language model and no answer of it reaches the
    caller of the run.  An exception that a run raises is one of the data
    it reads ([TypeError], [AttributeError], [KeyError], [ValueError],
    [OverflowError]), or one that [json.loads] raised on the criteria of an
    incentive or on the secondary codes of a company of the run and that
    lines 86 and 26 do not catch (they catch [JSONDecodeError] and
    [TypeError] only), or one with which the database refused the rows of
    a commit.  So where [json.loads] raises nothing but [JSONDecodeError] and
    the database takes every row, a run raises none but the five. *)
Theorem run_raises_traceable_errors (E : Externals) (k : Z) (w : World) :
  match fst (find_and_store_matches E k w) with
  | Ok _ => True
  | Raise e =>
      run_error E (w_incentives w) (w_companies w) e
      /\ ((forall s e', json_loads E s = Raise e' -> e' = JSONDecodeError) ->
          (forall rows, flush_error E rows = None) ->
          data_error e)
  end.
Proof.
  destruct (find_and_store_matches E k w) as [[v | e] w'] eqn:H; simpl; [exact I |].
  assert (Hrun : run_error E (w_incentives w) (w_companies w) e).
  { destruct (w_incentives w) as [| i incs] eqn:Hi.
    { rewrite find_and_store_matches_empty in H by auto. discriminate. }
    destruct (w_companies w) as [| c cs] eqn:Hc.
    { rewrite find_and_store_matches_empty in H by auto. discriminate. }
    rewrite find_and_store_matches_clears in H by congruence.
    destruct (refusal E (w_pending w)) as [e' |] eqn:Hf.
    { injection H as <- _.
      apply refusal_rows in Hf.
      right. right. right. eauto. }
    rewrite Hi, Hc in H.
    revert H. unfold matching_tail.
    generalize (cleared k w). intros w0 H. revert w0 e w' H.
    apply raises_only_bind.
    { apply raises_only_for_each. intros s x Hx.
      apply match_incentive_run_error, Hx. }
    intros total.
    apply raises_only_bind; [apply db_commit_run_error | intros _].
    apply raises_only_bind; [apply raises_only_print | intros _].
    apply raises_only_ret. }
  split; [exact Hrun |].
  intros Hloads Hrows.
  destruct Hrun as [Hd | [(inc & _ & Hl & Hcaught) | [(c & _ & Hcodes) | (row & Hrow)]]].
  - exact Hd.
  - unfold loads_column in Hl.
    destruct (ai_description inc) as [text |].
    + apply Hloads in Hl. subst e. discriminate.
    + injection Hl as <-. discriminate.
  - destruct Hcodes as (codes & _ & _ & Hl & Hcaught).
    apply Hloads in Hl. subst e. discriminate.
  - rewrite Hrows in Hrow. discriminate.
Qed.
